(** * The normalized inventory store of the capstone application

    A shallow embedding of [src/capstone/store/slices/inventorySlice.ts]:
    the [Product] record, the slice state, the four async thunks, the case
    reducers of [createSlice] and the derived selectors, followed by the
    properties of the store that the specification states.

    Modelling conventions.
    - A JavaScript [number] is a binary64 double. The numeric fields of a
      product hold integer-valued numbers and are carried as integers [Z]
      (the generator only produces integers); the running sum of the
      statistics is computed as the code computes it, in doubles, rounding
      to nearest with ties to even.
    - [Math.random()] is an input: a rational drawn by the environment.
    - [Date.now()] and [new Date().toISOString()] are inputs as well: the
      clock reading in milliseconds and the ISO rendering of the current
      instant.
    - The built-ins [String.prototype.localeCompare],
      [String.prototype.toLowerCase] and [Date.prototype.toISOString] are
      variables of the development.
    - [createEntityAdapter] belongs to Redux Toolkit, not to the repository;
      its sorted adapter is modelled after the library's documented contract
      ([ids] kept in comparer order, [entities] keyed by [id]). *)

From Stdlib Require Import ZArith QArith Qround String Ascii List.
From Stdlib Require OrderedTypeEx SpecFloat.
From stdpp Require Import gmap strings list pretty sorting.

Local Open Scope Z_scope.
Local Open Scope string_scope.

(** A proof in a section depends on the variables of its statement only. *)
Set Default Proof Using "Type".

(** ** Type definitions *)

(** [Product['status']]: the union of three string literals. *)
Inductive StockStatus := InStock | LowStock | OutOfStock.

#[global] Instance StockStatus_eq_dec : EqDecision StockStatus.
Proof. solve_decision. Defined.

(** The string each literal stands for at run time. *)
Definition statusTag (st : StockStatus) : string :=
  match st with
  | InStock => "in-stock"
  | LowStock => "low-stock"
  | OutOfStock => "out-of-stock"
  end.

Module Product.
(** [interface Product]. *)
Record t := mk {
  id : string;
  name : string;
  sku : string;
  category : string;
  price : Z;
  quantity : Z;
  minStock : Z;
  status : StockStatus;
  lastUpdated : string
}.
End Product.

Module ProductData.
(** [Omit<Product, 'id' | 'lastUpdated' | 'status'>], the argument of
    [addProduct]. *)
Record t := mk {
  name : string;
  sku : string;
  category : string;
  price : Z;
  quantity : Z;
  minStock : Z
}.
End ProductData.

Module Changes.
(** [Partial<Product>]: every field optional. *)
Record t := mk {
  id : option string;
  name : option string;
  sku : option string;
  category : option string;
  price : option Z;
  quantity : option Z;
  minStock : option Z;
  status : option StockStatus;
  lastUpdated : option string
}.

Definition none : t := mk None None None None None None None None None.
End Changes.

(** [type FetchStatus]. *)
Inductive FetchStatus := Idle | Loading | Succeeded | Failed.

#[global] Instance FetchStatus_eq_dec : EqDecision FetchStatus.
Proof. solve_decision. Defined.

Module Filter.
(** [InventoryState['filter']]. *)
Record t := mk {
  category : string;
  status : string;
  searchTerm : string
}.
End Filter.

(** [keyof InventoryState['filter']]. *)
Inductive FilterKey := KCategory | KStatus | KSearchTerm.

(** [keyof Product]. *)
Inductive ProductKey :=
  | FId | FName | FSku | FCategory | FPrice | FQuantity | FMinStock
  | FStatus | FLastUpdated.

Inductive SortOrder := Asc | Desc.

(** The slice state: the adapter's [ids] and [entities] together with the
    fields of [InventoryState]. *)
Record State := mkState {
  ids : list string;
  entities : gmap string Product.t;
  status : FetchStatus;
  error : option string;
  filter : Filter.t;
  sortBy : ProductKey;
  sortOrder : SortOrder
}.

Definition set_adapter (s : State) (l : list string)
    (es : gmap string Product.t) : State :=
  mkState l es (status s) (error s) (filter s) (sortBy s) (sortOrder s).

Definition set_request (s : State) (st : FetchStatus) (e : option string)
    : State :=
  mkState (ids s) (entities s) st e (filter s) (sortBy s) (sortOrder s).

Definition set_filter (s : State) (f : Filter.t) : State :=
  mkState (ids s) (entities s) (status s) (error s) f (sortBy s) (sortOrder s).

Definition set_sort (s : State) (k : ProductKey) (o : SortOrder) : State :=
  mkState (ids s) (entities s) (status s) (error s) (filter s) k o.

(** ** Initial state *)

Definition initialFilter : Filter.t := Filter.mk "all" "all" "".

Definition initialState : State :=
  mkState [] ∅ Idle None initialFilter FName Asc.

(** ** Stock status

    The three places that compute a status (the mock generator, [addProduct]
    and [updateStock]) run the same two tests in the same order. *)
Definition stockStatus (quantity minStock : Z) : StockStatus :=
  if decide (quantity = 0) then OutOfStock
  else if decide (quantity < minStock) then LowStock
  else InStock.

(** The rule as the specification words it: out of stock at zero, low stock
    strictly between zero and the threshold, in stock otherwise. *)
Definition specStatus (quantity minStock : Z) : StockStatus :=
  if decide (quantity = 0) then OutOfStock
  else if decide (0 < quantity ∧ quantity < minStock) then LowStock
  else InStock.

(** ** JavaScript arrays and strings *)

Section Arrays.
Context {A : Type}.

(** Where a binary search for [x] ends in an array already ordered by
    [cmp]: behind every element that does not compare above [x]. *)
Fixpoint insertSorted (cmp : A → A → Z) (x : A) (l : list A) : list A :=
  match l with
  | [] => [x]
  | y :: l' =>
      if decide (cmp x y < 0) then x :: y :: l'
      else y :: insertSorted cmp x l'
  end.

(** [Array.prototype.sort(cmp)]: a stable sort. *)
Definition stableSort (cmp : A → A → Z) (l : list A) : list A :=
  foldl (λ acc x, insertSorted cmp x acc) [] l.

(** [Array.from(new Set(l))] when [seen] is empty: a [Set] iterates in
    insertion order, so every value stays at its first occurrence. *)
Fixpoint arrayFromSet `{EqDecision A} (seen l : list A) : list A :=
  match l with
  | [] => []
  | x :: l' =>
      if decide (x ∈ seen) then arrayFromSet seen l'
      else x :: arrayFromSet (x :: seen) l'
  end.

(** [a[a.indexOf(x)] = y], for an [x] that occurs in [a]. *)
Fixpoint replaceFirst `{EqDecision A} (x y : A) (l : list A) : list A :=
  match l with
  | [] => []
  | z :: l' => if decide (z = x) then y :: l' else z :: replaceFirst x y l'
  end.
End Arrays.

Fixpoint repeatChar (n : nat) (c : ascii) : string :=
  match n with
  | O => ""
  | S n' => String c (repeatChar n' c)
  end.

(** [s.padStart(targetLength, c)] for a one-character pad string. *)
Definition padStart (targetLength : nat) (c : ascii) (s : string) : string :=
  repeatChar (targetLength - String.length s) c +:+ s.

(** [hay.includes(needle)]. *)
Fixpoint includes (hay needle : string) : bool :=
  String.prefix needle hay
  || match hay with
     | EmptyString => false
     | String _ hay' => includes hay' needle
     end.

(** [new Date(x)] keeps the integral part of a time value. *)
Definition timeClip (x : Q) : Z := Z.quot (Qnum x) (Zpos (Qden x)).

(** ** Numbers

    [number z] is the double that holds the integer [z]: the integer itself
    when it has at most 53 significant bits, the nearest binary64 value
    otherwise, ties going to the even mantissa. *)
Definition number (z : Z) : SpecFloat.spec_float :=
  SpecFloat.binary_normalize 53 1024 z 0 false.

(** [x + y] and [x * y] on numbers: the binary64 operations. *)
Definition numAdd : SpecFloat.spec_float → SpecFloat.spec_float
                    → SpecFloat.spec_float :=
  SpecFloat.SFadd 53 1024.

Definition numMul : SpecFloat.spec_float → SpecFloat.spec_float
                    → SpecFloat.spec_float :=
  SpecFloat.SFmul 53 1024.

(** The normal form of the double that holds a non-zero integer of at most
    53 bits: sign [s], the bits [v] shifted up to a 53-bit mantissa, and
    the exponent that undoes the shift. *)
Definition finiteDouble (s : bool) (v : positive) : SpecFloat.spec_float :=
  SpecFloat.S754_finite s
    (Pos.shiftl_nat v (Z.to_nat (53 - Zpos (Pos.size v))))
    (Zpos (Pos.size v) - 53).

(** ** Thunk results

    A thunk of [createAsyncThunk] settles in a [fulfilled] action carrying
    the returned value or, through [rejectWithValue], in a [rejected] action
    carrying the given message. *)
Inductive ThunkResult (A : Type) :=
  | Fulfilled (payload : A)
  | Rejected (payload : string).
Arguments Fulfilled {A} payload.
Arguments Rejected {A} payload.

(** The actions the slice reducer distinguishes; every other action type
    (for instance [addProduct.pending]) is an [OtherAction]. *)
Inductive Action :=
  | SetFilter (key : FilterKey) (value : string)
  | ClearFilters
  | SetSort (sortBy : ProductKey) (sortOrder : SortOrder)
  | UpdateStock (id : string) (quantity : Z)
  | FetchInventoryPending
  | FetchInventoryFulfilled (payload : list Product.t)
  | FetchInventoryRejected (payload : string)
  | AddProductFulfilled (payload : Product.t)
  | UpdateProductFulfilled (id : string) (changes : Changes.t)
  | DeleteProductFulfilled (payload : string)
  | OtherAction (type : string).

(** The random numbers and the clock reading one generated product uses, in
    the order the generator draws them. *)
Record Draw := mkDraw {
  rQuantity : Q;
  rCategory : Q;
  rPrice : Q;
  dateNow : Z;
  rDate : Q
}.

(** What [fetchInventory] takes from its environment: the number compared
    with the failure rate, then the draws of each product by index. *)
Record FetchEnv := mkFetchEnv {
  rFail : Q;
  draws : nat → Draw
}.

(** What a dispatch does to its caller. *)
Inductive Outcome :=
  | Returned (s : State)
  | Threw (message : string).

(** ** A concrete instance of the built-ins

    For evaluating the store on concrete inputs: comparison by code units
    in place of the locale's collation, lower-casing of the ASCII letters,
    and the time value in decimal in place of the ISO rendering. *)
Definition codeUnitCompare (a b : string) : Z :=
  match String.compare a b with
  | Lt => -1
  | Eq => 0
  | Gt => 1
  end.

Definition asciiLowerChar (c : ascii) : ascii :=
  let n := nat_of_ascii c in
  if (65 <=? n)%nat && (n <=? 90)%nat then ascii_of_nat (n + 32) else c.

Fixpoint asciiLower (s : string) : string :=
  match s with
  | EmptyString => EmptyString
  | String c s' => String (asciiLowerChar c) (asciiLower s')
  end.

Definition decimalTime (t : Z) : string := pretty t.

Section Store.
(** The built-ins the slice calls. *)
Variable localeCompare : string → string → Z.
Variable toLowerCase : string → string.
Variable toISOString : Z → string.

(** ** Entity adapter *)

(** [sortComparer: (a, b) => a.name.localeCompare(b.name)]. *)
Definition sortComparer (a b : Product.t) : Z :=
  localeCompare (Product.name a) (Product.name b).

(** The adapter's merge step: the entities listed by [ids], the added
    items written into [entities] and placed by the comparer, a full sort
    when there was nothing before or when entities were updated in place,
    and [ids] read back from the sorted entities. *)
Definition mergeFunction (s : State) (addedItems : list Product.t)
    (appliedUpdates replacedIds : bool) : State :=
  let currentIds := if replacedIds then arrayFromSet [] (ids s) else ids s in
  let sortedEntities := omap (λ i, entities s !! i) currentIds in
  let stateEntities :=
    foldl (λ m item, <[Product.id item := item]> m) (entities s) addedItems in
  let sorted' :=
    match sortedEntities with
    | [] => stableSort sortComparer addedItems
    | _ =>
        let inserted :=
          foldl (λ acc item, insertSorted sortComparer item acc)
                sortedEntities addedItems in
        if appliedUpdates then stableSort sortComparer inserted else inserted
    end in
  set_adapter s (Product.id <$> sorted') stateEntities.

Definition addMany (s : State) (newEntities : list Product.t)
    (existingIds : list string) : State :=
  match List.filter (λ model, bool_decide (Product.id model ∉ existingIds))
                    newEntities with
  | [] => s
  | models => mergeFunction s models false false
  end.

(** [addOne]: adds the entity unless its id is already present. *)
Definition addOne (s : State) (entity : Product.t) : State :=
  addMany s [entity] (ids s).

(** [setAll]: replaces every entity by those of the array. *)
Definition setAll (s : State) (newEntities : list Product.t) : State :=
  addMany (set_adapter s [] ∅) newEntities [].

(** [Object.assign(entity, changes)]. *)
Definition assign (entity : Product.t) (changes : Changes.t) : Product.t :=
  Product.mk
    (default (Product.id entity) (Changes.id changes))
    (default (Product.name entity) (Changes.name changes))
    (default (Product.sku entity) (Changes.sku changes))
    (default (Product.category entity) (Changes.category changes))
    (default (Product.price entity) (Changes.price changes))
    (default (Product.quantity entity) (Changes.quantity changes))
    (default (Product.minStock entity) (Changes.minStock changes))
    (default (Product.status entity) (Changes.status changes))
    (default (Product.lastUpdated entity) (Changes.lastUpdated changes)).

(** [updateOne]: a shallow update of the entity under [id], if any; an
    update that changes the entity's id moves it to the new key. *)
Definition updateOne (s : State) (id : string) (changes : Changes.t)
    : State :=
  match entities s !! id with
  | None => s
  | Some entity =>
      let entity' := assign entity changes in
      let newId := Product.id entity' in
      if decide (id = newId) then
        mergeFunction
          (set_adapter s (ids s) (<[id := entity']> (entities s)))
          [] true false
      else
        mergeFunction
          (set_adapter s (replaceFirst id newId (ids s))
             (<[newId := entity']> (delete id (entities s))))
          [] true true
  end.

(** [removeOne]: deletes the key if it is present and drops from [ids]
    what is no longer a key. *)
Definition removeOne (s : State) (key : string) : State :=
  if decide (is_Some (entities s !! key)) then
    let entities' := delete key (entities s) in
    set_adapter s
      (List.filter (λ i, bool_decide (is_Some (entities' !! i))) (ids s))
      entities'
  else s.

(** ** Mock data generator *)

Definition categories : list string :=
  ["Electronics"; "Clothing"; "Food"; "Books"; "Sports"; "Home"].

Definition mockProduct (index : nat) (d : Draw) : Product.t :=
  let quantity := Qfloor (rQuantity d * 100) in
  let minStock := 10 in
  Product.mk
    ("PROD-" +:+ padStart 5 "0" (pretty (S index)))
    ("Product " +:+ pretty (S index))
    ("SKU-" +:+ padStart 6 "0" (pretty (S index)))
    (default ""
       (categories !!
          Z.to_nat (Qfloor (rCategory d
                            * inject_Z (Z.of_nat (length categories))))))
    (Qfloor (rPrice d * 1000) + 10)
    quantity
    minStock
    (stockStatus quantity minStock)
    (toISOString
       (timeClip (inject_Z (dateNow d)
                  - rDate d * inject_Z (30 * 24 * 60 * 60 * 1000)))).

Definition generateMockProducts (count : nat) (draw : nat → Draw)
    : list Product.t :=
  (λ index, mockProduct index (draw index)) <$> seq 0 count.

(** ** Async thunks *)

(** [fetchInventory]: [count] defaults to 5000; one draw in ten throws the
    network error, whose message the [catch] hands to [rejectWithValue]. *)
Definition fetchInventory (count : option Z) (env : FetchEnv)
    : ThunkResult (list Product.t) :=
  if Qlt_le_dec (rFail env) (1 # 10) then
    Rejected "Network error: Failed to fetch inventory"
  else
    Fulfilled (generateMockProducts (Z.to_nat (default 5000 count))
                                    (draws env)).

(** [addProduct]: [dateNow] is the reading of [Date.now()], [now] the
    rendering of [new Date().toISOString()]. *)
Definition addProduct (productData : ProductData.t) (dateNow : Z)
    (now : string) : ThunkResult Product.t :=
  let quantity := ProductData.quantity productData in
  let minStock := ProductData.minStock productData in
  Fulfilled
    (Product.mk
       ("PROD-" +:+ pretty dateNow)
       (ProductData.name productData)
       (ProductData.sku productData)
       (ProductData.category productData)
       (ProductData.price productData)
       quantity
       minStock
       (stockStatus quantity minStock)
       now).

(** [updateProduct]: hands the changes on with a fresh [lastUpdated]. *)
Definition updateProduct (id : string) (changes : Changes.t) (now : string)
    : ThunkResult (string * Changes.t) :=
  Fulfilled
    (id,
     Changes.mk (Changes.id changes) (Changes.name changes)
       (Changes.sku changes) (Changes.category changes)
       (Changes.price changes) (Changes.quantity changes)
       (Changes.minStock changes) (Changes.status changes) (Some now)).

(** [deleteProduct]. *)
Definition deleteProduct (id : string) : ThunkResult string :=
  Fulfilled id.

(** ** Slice reducers *)

Definition setFilter (s : State) (key : FilterKey) (value : string)
    : State :=
  let f := filter s in
  set_filter s
    match key with
    | KCategory => Filter.mk value (Filter.status f) (Filter.searchTerm f)
    | KStatus => Filter.mk (Filter.category f) value (Filter.searchTerm f)
    | KSearchTerm => Filter.mk (Filter.category f) (Filter.status f) value
    end.

Definition clearFilters (s : State) : State :=
  set_filter s (Filter.mk "all" "all" "").

Definition setSort (s : State) (k : ProductKey) (o : SortOrder) : State :=
  set_sort s k o.

(** [updateStock]; [now] is the rendering of [new Date().toISOString()]. *)
Definition updateStock (now : string) (s : State) (id : string)
    (quantity : Z) : State :=
  match entities s !! id with
  | Some product =>
      let product' :=
        Product.mk (Product.id product) (Product.name product)
          (Product.sku product) (Product.category product)
          (Product.price product) quantity (Product.minStock product)
          (stockStatus quantity (Product.minStock product)) now in
      set_adapter s (ids s) (<[id := product']> (entities s))
  | None => s
  end.

(** The reducer of the slice: [reducers] and [extraReducers] together. *)
Definition inventoryReducer (now : string) (s : State) (a : Action)
    : State :=
  match a with
  | SetFilter key value => setFilter s key value
  | ClearFilters => clearFilters s
  | SetSort k o => setSort s k o
  | UpdateStock id quantity => updateStock now s id quantity
  | FetchInventoryPending => set_request s Loading None
  | FetchInventoryFulfilled payload =>
      setAll (set_request s Succeeded (error s)) payload
  | FetchInventoryRejected payload => set_request s Failed (Some payload)
  | AddProductFulfilled payload => addOne s payload
  | UpdateProductFulfilled id changes => updateOne s id changes
  | DeleteProductFulfilled payload => removeOne s payload
  | OtherAction _ => s
  end.

(** No case reducer has a [throw]: a dispatch always returns. *)
Definition dispatch (now : string) (s : State) (a : Action) : Outcome :=
  Returned (inventoryReducer now s a).

(** ** Selectors *)

(** [selectAll] as the adapter computes it, [ids.map(id => entities[id])];
    an id without an entity yields [undefined]. *)
Definition selectAllRaw (s : State) : list (option Product.t) :=
  (λ i, entities s !! i) <$> ids s.

(** [selectAllProducts]: the entities in the order of [ids]. *)
Definition selectAllProducts (s : State) : list Product.t :=
  omap (λ i, entities s !! i) (ids s).

Definition selectInventoryStatus (s : State) : FetchStatus := status s.
Definition selectInventoryError (s : State) : option string := error s.
Definition selectInventoryFilter (s : State) : Filter.t := filter s.

(** The result function of [selectFilteredProducts]. *)
Definition filterProducts (products : list Product.t) (f : Filter.t)
    : list Product.t :=
  List.filter
    (λ product,
       let matchesCategory :=
         bool_decide (Filter.category f = "all")
         || bool_decide (Product.category product = Filter.category f) in
       let matchesStatus :=
         bool_decide (Filter.status f = "all")
         || bool_decide (statusTag (Product.status product)
                         = Filter.status f) in
       let matchesSearch :=
         bool_decide (Filter.searchTerm f = "")
         || includes (toLowerCase (Product.name product))
                     (toLowerCase (Filter.searchTerm f))
         || includes (toLowerCase (Product.sku product))
                     (toLowerCase (Filter.searchTerm f)) in
       matchesCategory && matchesStatus && matchesSearch)
    products.

Definition selectFilteredProducts (s : State) : list Product.t :=
  filterProducts (selectAllProducts s) (selectInventoryFilter s).

(** The object [selectInventoryStats] returns. *)
Record Stats := mkStats {
  total : nat;
  inStock : nat;
  lowStock : nat;
  outOfStock : nat;
  totalValue : SpecFloat.spec_float;
  statsCategories : list string
}.

(** The result function of [selectInventoryStats]. *)
Definition inventoryStats (products : list Product.t) : Stats :=
  mkStats
    (length products)
    (length (List.filter
               (λ p, bool_decide (Product.status p = InStock)) products))
    (length (List.filter
               (λ p, bool_decide (Product.status p = LowStock)) products))
    (length (List.filter
               (λ p, bool_decide (Product.status p = OutOfStock)) products))
    (foldl
       (λ sum p,
          numAdd sum
            (numMul (number (Product.price p))
               (number (Product.quantity p))))
       (number 0) products)
    (arrayFromSet [] (Product.category <$> products)).

Definition selectInventoryStats (s : State) : Stats :=
  inventoryStats (selectAllProducts s).

(** ** Dispatching the thunks

    A thunk dispatches its [pending] action when it starts and the action
    of its result when it settles. The slice has a case for
    [fetchInventory.pending] only; the [rejected] actions of the three
    mutation thunks have no case either. *)

Definition fetchSettled (r : ThunkResult (list Product.t)) : Action :=
  match r with
  | Fulfilled payload => FetchInventoryFulfilled payload
  | Rejected payload => FetchInventoryRejected payload
  end.

Definition addSettled (r : ThunkResult Product.t) : Action :=
  match r with
  | Fulfilled payload => AddProductFulfilled payload
  | Rejected _ => OtherAction "inventory/addProduct/rejected"
  end.

Definition updateSettled (r : ThunkResult (string * Changes.t)) : Action :=
  match r with
  | Fulfilled (id, changes) => UpdateProductFulfilled id changes
  | Rejected _ => OtherAction "inventory/updateProduct/rejected"
  end.

Definition deleteSettled (r : ThunkResult string) : Action :=
  match r with
  | Fulfilled payload => DeleteProductFulfilled payload
  | Rejected _ => OtherAction "inventory/deleteProduct/rejected"
  end.

(** What the store's clients can make happen. A load is two events, its
    start and its settling, and nothing keeps a second load from starting
    in between. *)
Inductive Event :=
  | LoadStart
  | LoadSettle (count : option Z) (env : FetchEnv)
  | Add (productData : ProductData.t) (dateNow : Z)
  | Update (id : string) (changes : Changes.t)
  | Remove (id : string)
  | UpdateQuantity (id : string) (quantity : Z)
  | FilterBy (key : FilterKey) (value : string)
  | ClearFilter
  | SortBy (k : ProductKey) (o : SortOrder).

(** The store together with the number of loads that have started and not
    settled yet. *)
Record World := mkWorld {
  store : State;
  pendingLoads : nat
}.

Definition initialWorld : World := mkWorld initialState 0.

(** One event, at the instant rendered as [now]; a load can only settle
    after it has started. *)
Definition handle (w : World) (now : string) (e : Event) : option World :=
  let s := store w in
  let n := pendingLoads w in
  match e with
  | LoadStart =>
      Some (mkWorld (inventoryReducer now s FetchInventoryPending) (S n))
  | LoadSettle count env =>
      match n with
      | O => None
      | S n' =>
          Some (mkWorld
                  (inventoryReducer now s
                     (fetchSettled (fetchInventory count env)))
                  n')
      end
  | Add productData dateNow =>
      Some (mkWorld
              (inventoryReducer now s
                 (addSettled (addProduct productData dateNow now)))
              n)
  | Update id changes =>
      Some (mkWorld
              (inventoryReducer now s
                 (updateSettled (updateProduct id changes now)))
              n)
  | Remove id =>
      Some (mkWorld
              (inventoryReducer now s (deleteSettled (deleteProduct id)))
              n)
  | UpdateQuantity id quantity =>
      Some (mkWorld (inventoryReducer now s (UpdateStock id quantity)) n)
  | FilterBy key value =>
      Some (mkWorld (inventoryReducer now s (SetFilter key value)) n)
  | ClearFilter => Some (mkWorld (inventoryReducer now s ClearFilters) n)
  | SortBy k o => Some (mkWorld (inventoryReducer now s (SetSort k o)) n)
  end.

Fixpoint handleAll (w : World) (trace : list (string * Event))
    : option World :=
  match trace with
  | [] => Some w
  | (now, e) :: trace' =>
      match handle w now e with
      | Some w' => handleAll w' trace'
      | None => None
      end
  end.

(** The store states some history of events leads to. *)
Definition reachable (s : State) : Prop :=
  ∃ trace w, handleAll initialWorld trace = Some w ∧ store w = s.

(** Histories in which a load starts only when none is pending. *)
Definition sequential (w : World) (e : Event) : bool :=
  match e with
  | LoadStart => bool_decide (pendingLoads w = O)
  | _ => true
  end.

Fixpoint handleAllSequential (w : World) (trace : list (string * Event))
    : option World :=
  match trace with
  | [] => Some w
  | (now, e) :: trace' =>
      if sequential w e then
        match handle w now e with
        | Some w' => handleAllSequential w' trace'
        | None => None
        end
      else None
  end.

(** A whole load, from its start to its settling. *)
Definition load (now : string) (s : State) (count : option Z)
    (env : FetchEnv) : State :=
  inventoryReducer now (inventoryReducer now s FetchInventoryPending)
    (fetchSettled (fetchInventory count env)).

(** ** Invariants of the normalized state *)

(** Every entity is stored under its own id. *)
Definition keyed (s : State) : Prop :=
  map_Forall (λ k p, Product.id p = k) (entities s).

(** Every id listed in [ids] has an entity. *)
Definition listed (s : State) : Prop :=
  Forall (λ k, is_Some (entities s !! k)) (ids s).

(** Every key of [entities] is listed in [ids]. *)
Definition covered (s : State) : Prop :=
  map_Forall (λ k _, k ∈ ids s) (entities s).

(** The normalized shape: [ids] without repetition and in bijection with
    the keys of [entities]. *)
Definition wellFormed (s : State) : Prop :=
  NoDup (ids s) ∧ listed s ∧ keyed s ∧ covered s.

#[global] Instance wellFormed_dec s : Decision (wellFormed s).
Proof. unfold wellFormed, listed, keyed, covered. apply _. Defined.

(** [status] follows from [quantity] and [minStock] by the worded rule. *)
Definition statusConsistent (s : State) : Prop :=
  map_Forall
    (λ _ p, Product.status p
            = specStatus (Product.quantity p) (Product.minStock p))
    (entities s).

(** [error] is null unless the last load failed. *)
Definition errorConsistent (s : State) : Prop :=
  status s ≠ Failed → error s = None.

(** What the specification asks an invalid draft to be. *)
Definition invalidDraft (d : ProductData.t) : Prop :=
  ProductData.name d = "" ∨ ProductData.sku d = ""
  ∨ ProductData.category d = "" ∨ ProductData.price d < 0
  ∨ ProductData.quantity d < 0.

(** The statistics as the specification words them: how many entities
    carry a status, and the sum of price times quantity, as the integer it
    is. *)
Fixpoint countStatus (st : StockStatus) (l : list Product.t) : nat :=
  match l with
  | [] => O
  | p :: l' =>
      ((if decide (Product.status p = st) then 1 else 0)
       + countStatus st l')%nat
  end.

Fixpoint inventoryValue (l : list Product.t) : Z :=
  match l with
  | [] => 0
  | p :: l' => Product.price p * Product.quantity p + inventoryValue l'
  end.

(** The sum as a program takes it: each price times quantity added in
    turn, in doubles, to the sum so far. *)
Fixpoint sumValues (sum : SpecFloat.spec_float) (l : list Product.t)
    : SpecFloat.spec_float :=
  match l with
  | [] => sum
  | p :: l' =>
      sumValues
        (numAdd sum
           (numMul (number (Product.price p)) (number (Product.quantity p))))
        l'
  end.

(** The sum of the absolute values of price times quantity: a bound of
    every partial sum. *)
Fixpoint magnitude (l : list Product.t) : Z :=
  match l with
  | [] => 0
  | p :: l' => Z.abs (Product.price p * Product.quantity p) + magnitude l'
  end.

(** The values stay in the range where doubles hold every integer: the
    prices, the quantities and the sum of the absolute values are below
    2^53. *)
Definition safeValues (l : list Product.t) : Prop :=
  Forall
    (λ p, (Z.abs (Product.price p) < 2 ^ 53)%Z
          ∧ (Z.abs (Product.quantity p) < 2 ^ 53)%Z) l
  ∧ (magnitude l < 2 ^ 53)%Z.

(** The spec's names for the store operations that go through a thunk. *)
Definition add (now : string) (s : State) (productData : ProductData.t)
    (dateNow : Z) : State :=
  inventoryReducer now s (addSettled (addProduct productData dateNow now)).

Definition update (now : string) (s : State) (id : string)
    (changes : Changes.t) : State :=
  inventoryReducer now s (updateSettled (updateProduct id changes now)).

Definition remove (now : string) (s : State) (id : string) : State :=
  inventoryReducer now s (deleteSettled (deleteProduct id)).

(** Repeated [add] calls, each with the instant of its dispatch, its
    draft and its reading of [Date.now()]. *)
Fixpoint addAll (s : State) (calls : list (string * ProductData.t * Z))
    : State :=
  match calls with
  | [] => s
  | (now, productData, dateNow) :: calls' =>
      addAll (add now s productData dateNow) calls'
  end.

(** Every call of the sequence is fulfilled with a product whose id the
    store does not hold when the call is made. *)
Fixpoint eachIdFresh (s : State) (calls : list (string * ProductData.t * Z))
    : Prop :=
  match calls with
  | [] => True
  | (now, productData, dateNow) :: calls' =>
      match addProduct productData dateNow now with
      | Fulfilled p => Product.id p ∉ ids s
      | Rejected _ => False
      end
      ∧ eachIdFresh (add now s productData dateNow) calls'
  end.

(** Only the three [fetchInventory] actions change the request fields. *)
Definition isFetchAction (a : Action) : bool :=
  match a with
  | FetchInventoryPending | FetchInventoryFulfilled _
  | FetchInventoryRejected _ => true
  | _ => false
  end.

(** What holds along a history without overlapping loads: with no load
    pending the request error is consistent, and a pending load means
    status [loading] and no error. *)
Definition settledOrLoading (w : World) : Prop :=
  (pendingLoads w = O ∧ errorConsistent (store w))
  ∨ (pendingLoads w = 1%nat ∧ status (store w) = Loading
     ∧ error (store w) = None).

(** What an event has to bring for a property [R] of single products to
    hold throughout the store: the products it writes enjoy [R], and it is
    not an [updateProduct], which writes whatever it is handed. *)
Definition respects (R : Product.t → Prop) (now : string) (e : Event)
    : Prop :=
  match e with
  | LoadSettle _ env => ∀ index, R (mockProduct index (draws env index))
  | Add productData dateNow =>
      ∀ p, addProduct productData dateNow now = Fulfilled p → R p
  | Update _ _ => False
  | UpdateQuantity _ quantity =>
      ∀ p, R p →
        R (Product.mk (Product.id p) (Product.name p) (Product.sku p)
             (Product.category p) (Product.price p) quantity
             (Product.minStock p)
             (stockStatus quantity (Product.minStock p)) now)
  | _ => True
  end.

(** The events that go through [updateProduct]. *)
Definition isUpdate (e : Event) : bool :=
  match e with
  | Update _ _ => true
  | _ => false
  end.

(** The quantities an event writes are not negative. *)
Definition nonNegative (e : Event) : Prop :=
  match e with
  | LoadSettle _ env => ∀ index, (0 <= rQuantity (draws env index))%Q
  | Add productData _ => (0 ≤ ProductData.quantity productData)%Z
  | UpdateQuantity _ quantity => (0 ≤ quantity)%Z
  | _ => True
  end.

(** A numeral without the zeros it starts with. *)
Fixpoint dropZeros (s : string) : string :=
  match s with
  | EmptyString => EmptyString
  | String c s' => if decide (c = "0"%char) then dropZeros s' else s
  end.

(** ** The rest of the slice *)

(** The adapter's own selectors, exported as [selectProductById],
    [selectProductIds] and [selectTotalProducts]. *)
Definition selectProductById (s : State) (id : string) : option Product.t :=
  entities s !! id.

Definition selectProductIds (s : State) : list string := ids s.

Definition selectTotalProducts (s : State) : nat := length (ids s).

(** [selectInventorySort]. *)
Definition selectInventorySort (s : State) : ProductKey * SortOrder :=
  (sortBy s, sortOrder s).

(** The test one product has to pass in [selectFilteredProducts]. *)
Definition matchesFilter (f : Filter.t) (product : Product.t) : bool :=
  let matchesCategory :=
    bool_decide (Filter.category f = "all")
    || bool_decide (Product.category product = Filter.category f) in
  let matchesStatus :=
    bool_decide (Filter.status f = "all")
    || bool_decide (statusTag (Product.status product) = Filter.status f) in
  let matchesSearch :=
    bool_decide (Filter.searchTerm f = "")
    || includes (toLowerCase (Product.name product))
                (toLowerCase (Filter.searchTerm f))
    || includes (toLowerCase (Product.sku product))
                (toLowerCase (Filter.searchTerm f)) in
  matchesCategory && matchesStatus && matchesSearch.

(** A run of [setFilter] dispatches. *)
Definition setFilters (s : State) (settings : list (FilterKey * string))
    : State :=
  foldl (λ s kv, setFilter s kv.1 kv.2) s settings.

(** A draw of [Math.random()] lies in the unit interval; of the five
    values a generated product reads, three decide a field with a range. *)
Definition unitDraw (d : Draw) : Prop :=
  (0 <= rQuantity d)%Q ∧ (rQuantity d < 1)%Q
  ∧ (0 <= rCategory d)%Q ∧ (rCategory d < 1)%Q
  ∧ (0 <= rPrice d)%Q ∧ (rPrice d < 1)%Q.

(** The changes [updateProduct] hands on: [{ ...changes, lastUpdated }]. *)
Definition withLastUpdated (changes : Changes.t) (now : string) : Changes.t :=
  Changes.mk (Changes.id changes) (Changes.name changes)
    (Changes.sku changes) (Changes.category changes)
    (Changes.price changes) (Changes.quantity changes)
    (Changes.minStock changes) (Changes.status changes) (Some now).

(** What the adapter needs of a comparer to keep an array sorted: comparing
    strictly below is asymmetric and transitive, as a collation is. *)
Definition strictOrder {A} (cmp : A → A → Z) : Prop :=
  (∀ a b, cmp a b < 0 → ¬ cmp b a < 0)
  ∧ (∀ a b c, cmp a b < 0 → cmp b c < 0 → cmp a c < 0).

(** Sorted by [cmp]: no element is followed, at any distance, by one that
    compares strictly below it. *)
Definition sortedBy {A} (cmp : A → A → Z) (l : list A) : Prop :=
  StronglySorted (λ a b, ¬ cmp b a < 0) l.

(** Sorted by name, as [sortComparer] orders products. *)
Definition nameSorted (l : list Product.t) : Prop :=
  sortedBy localeCompare (Product.name <$> l).

(** ** The inventory page

    The derived values [InventoryPage] memoizes from the selected products,
    its local search term and the filter and sort settings of the store. *)

(** The built-in [Number] on a string: the number it spells, [None] for
    [NaN]. Numbers are integers here, as prices and quantities are
    throughout. *)
Variable toNumber : string → option Z.

(** The comparator the page sorts with. The string fields are compared by
    [localeCompare], the others as numbers; a difference with [NaN] is
    [NaN] (here [None]), and [sort] reads a [NaN] result as 0. *)
Definition pageCompare (field : ProductKey) (order : SortOrder)
    (a b : Product.t) : Z :=
  let difference (x y : option Z) : option Z :=
    match x, y with
    | Some x, Some y => Some (x - y)
    | _, _ => None
    end in
  let cmp : option Z :=
    match field with
    | FName => Some (localeCompare (Product.name a) (Product.name b))
    | FCategory =>
        Some (localeCompare (Product.category a) (Product.category b))
    | FSku => Some (localeCompare (Product.sku a) (Product.sku b))
    | FStatus =>
        Some (localeCompare (statusTag (Product.status a))
                (statusTag (Product.status b)))
    | FId => difference (toNumber (Product.id a)) (toNumber (Product.id b))
    | FPrice => Some (Product.price a - Product.price b)
    | FQuantity => Some (Product.quantity a - Product.quantity b)
    | FMinStock => Some (Product.minStock a - Product.minStock b)
    | FLastUpdated =>
        difference (toNumber (Product.lastUpdated a))
          (toNumber (Product.lastUpdated b))
    end in
  default 0
    match order with
    | Asc => cmp
    | Desc => Z.opp <$> cmp
    end.

(** [filteredProducts]: the local search, the category and the status
    filter one after the other, then the sort. *)
Definition pageFilteredProducts (products : list Product.t)
    (localSearchTerm : string) (f : Filter.t) (field : ProductKey)
    (order : SortOrder) : list Product.t :=
  let result := products in
  let result :=
    if decide (localSearchTerm = "") then result
    else
      let term := toLowerCase localSearchTerm in
      List.filter
        (λ p, includes (toLowerCase (Product.name p)) term
              || includes (toLowerCase (Product.sku p)) term)
        result in
  let result :=
    if decide (Filter.category f = "all") then result
    else
      List.filter
        (λ p, bool_decide (Product.category p = Filter.category f)) result in
  let result :=
    if decide (Filter.status f = "all") then result
    else
      List.filter
        (λ p, bool_decide (statusTag (Product.status p) = Filter.status f))
        result in
  stableSort (pageCompare field order) result.

(** The page's [stats], over the filtered products. *)
Record PageStats := mkPageStats {
  pageTotal : nat;
  pageTotalValue : SpecFloat.spec_float;
  pageLowStock : nat;
  pageOutOfStock : nat
}.

Definition pageStats (filteredProducts : list Product.t) : PageStats :=
  mkPageStats
    (length filteredProducts)
    (foldl
       (λ sum p,
          numAdd sum
            (numMul (number (Product.price p))
               (number (Product.quantity p))))
       (number 0) filteredProducts)
    (length (List.filter
               (λ p, bool_decide (Product.status p = LowStock))
               filteredProducts))
    (length (List.filter
               (λ p, bool_decide (Product.status p = OutOfStock))
               filteredProducts)).

(** ** Arrays: sorting and sets *)

Lemma insertSorted_perm {A} (cmp : A → A → Z) x l :
  insertSorted cmp x l ≡ₚ x :: l.
Proof.
  induction l as [|y l IH]; simpl; [done|].
  case_decide; [done|]. by rewrite IH, Permutation_swap.
Qed.

Lemma foldl_insertSorted_perm {A} (cmp : A → A → Z) l acc :
  foldl (λ acc x, insertSorted cmp x acc) acc l ≡ₚ acc ++ l.
Proof.
  revert acc. induction l as [|x l IH]; intros acc; simpl.
  - by rewrite app_nil_r.
  - rewrite IH, insertSorted_perm. simpl. by rewrite <- Permutation_middle.
Qed.

Lemma stableSort_perm {A} (cmp : A → A → Z) l : stableSort cmp l ≡ₚ l.
Proof. unfold stableSort. by rewrite foldl_insertSorted_perm. Qed.

Lemma elem_of_arrayFromSet `{EqDecision A} (seen l : list A) x :
  x ∈ arrayFromSet seen l ↔ x ∈ l ∧ x ∉ seen.
Proof.
  revert seen. induction l as [|y l IH]; intros seen; simpl.
  - rewrite !elem_of_nil. tauto.
  - case_decide as Hy.
    + rewrite IH, elem_of_cons. split; [tauto|].
      intros [[->|?] ?]; tauto.
    + rewrite !elem_of_cons, IH, elem_of_cons. split.
      * intros [->|[? ?]]; [tauto|]. split; [tauto|]. tauto.
      * intros [[->|?] ?]; [tauto|].
        destruct (decide (x = y)) as [->|?]; tauto.
Qed.

Lemma NoDup_arrayFromSet `{EqDecision A} (seen l : list A) :
  NoDup (arrayFromSet seen l).
Proof.
  revert seen. induction l as [|y l IH]; intros seen; simpl.
  - constructor.
  - case_decide; [apply IH|]. constructor; [|apply IH].
    rewrite elem_of_arrayFromSet, elem_of_cons. tauto.
Qed.

Lemma filter_all_true {A} (f : A → bool) (l : list A) :
  (∀ x, f x = true) → List.filter f l = l.
Proof.
  intros Hf. induction l as [|x l IH]; simpl; [done|].
  by rewrite Hf, IH.
Qed.

(** ** Statistics *)

Lemma length_filter_status st (l : list Product.t) :
  length (List.filter (λ p, bool_decide (Product.status p = st)) l)
  = countStatus st l.
Proof.
  induction l as [|p l IH]; simpl; [done|].
  rewrite <- IH. case_bool_decide; case_decide; simpl; congruence.
Qed.

Lemma inventoryValue_app (l1 l2 : list Product.t) :
  inventoryValue (l1 ++ l2)%list = inventoryValue l1 + inventoryValue l2.
Proof. induction l1 as [|p l1 IH]; simpl; [done|]. rewrite IH. lia. Qed.

Lemma inventoryValue_perm (l k : list Product.t) :
  l ≡ₚ k → inventoryValue l = inventoryValue k.
Proof.
  induction 1 as [|p l k _ IH|p q l|l k m _ IH1 _ IH2]; simpl;
    [done|by rewrite IH|lia|congruence].
Qed.

Lemma magnitude_nonneg (l : list Product.t) : (0 ≤ magnitude l)%Z.
Proof. induction l as [|p l IH]; simpl; lia. Qed.

Lemma magnitude_perm (l k : list Product.t) :
  l ≡ₚ k → magnitude l = magnitude k.
Proof.
  induction 1 as [|p l k _ IH|p q l|l k m _ IH1 _ IH2]; simpl;
    [done|by rewrite IH|lia|congruence].
Qed.

Lemma safeValues_perm (l k : list Product.t) :
  l ≡ₚ k → safeValues l → safeValues k.
Proof.
  intros Hperm [Hall Hsum]. split.
  - by rewrite <- Hperm.
  - by rewrite <- (magnitude_perm _ _ Hperm).
Qed.

Lemma foldl_sumValues (l : list Product.t) sum :
  foldl
    (λ sum p,
       numAdd sum
         (numMul (number (Product.price p)) (number (Product.quantity p))))
    sum l
  = sumValues sum l.
Proof. revert sum. induction l as [|p l IH]; intros sum; simpl; done. Qed.

(** *** Doubles on integers

    Up to 2^53 in absolute value the doubles hold every integer, and a sum
    or a product that stays in this range is not rounded. *)

Section DoubleArithmetic.
Import SpecFloat.
Local Open Scope Z_scope.

Lemma digits2_size p : digits2_pos p = Pos.size p.
Proof. induction p; simpl; congruence. Qed.

Lemma shiftl_nat_S v n : Pos.shiftl_nat v (S n) = xO (Pos.shiftl_nat v n).
Proof. reflexivity. Qed.

Lemma size_shiftl_nat v n :
  Zpos (Pos.size (Pos.shiftl_nat v n)) = Zpos (Pos.size v) + Z.of_nat n.
Proof.
  induction n as [|n IH].
  - simpl. lia.
  - rewrite shiftl_nat_S. simpl Pos.size. rewrite Pos2Z.inj_succ, IH. lia.
Qed.

Lemma shiftl_nat_add v n k :
  Pos.shiftl_nat (Pos.shiftl_nat v n) k = Pos.shiftl_nat v (n + k).
Proof.
  induction k as [|k IH].
  - now rewrite Nat.add_0_r.
  - rewrite Nat.add_succ_r, !shiftl_nat_S. now rewrite IH.
Qed.

Lemma Zpos_shiftl_nat v n :
  Zpos (Pos.shiftl_nat v n) = Zpos v * 2 ^ Z.of_nat n.
Proof.
  induction n as [|n IH].
  - simpl. lia.
  - rewrite shiftl_nat_S, Pos2Z.inj_xO, IH, Nat2Z.inj_succ, Z.pow_succ_r by lia.
    ring.
Qed.

Lemma iter_xO_shiftl_nat m p :
  Pos.iter xO m p = Pos.shiftl_nat m (Pos.to_nat p).
Proof.
  rewrite Pos2Nat.inj_iter.
  induction (Pos.to_nat p) as [|n IH]; [reflexivity|].
  rewrite shiftl_nat_S, <- IH. reflexivity.
Qed.

Lemma iter_pos_nat {A} (f : A → A) n x :
  iter_pos f n x = Nat.iter (Pos.to_nat n) f x.
Proof.
  revert x. induction n as [n IH|n IH|]; intros x; simpl iter_pos.
  - rewrite !IH, Pos2Nat.inj_xI, <- Nat.iter_add, Nat.iter_succ_r.
    f_equal. lia.
  - rewrite !IH, Pos2Nat.inj_xO, <- Nat.iter_add. f_equal. lia.
  - reflexivity.
Qed.

Lemma iter_shr_exact v n :
  Nat.iter n shr_1 (Build_shr_record (Zpos (Pos.shiftl_nat v n)) false false)
  = Build_shr_record (Zpos v) false false.
Proof.
  induction n as [|n IH]; [reflexivity|].
  rewrite Nat.iter_succ_r, shiftl_nat_S. exact IH.
Qed.

(** Rounding a mantissa of at least 53 bits whose bits below the 53rd are
    zero. *)
Lemma binary_round_aux_exact s v k :
  Zpos (Pos.size v) ≤ 53 → 53 ≤ Zpos (Pos.size v) + Z.of_nat k →
  binary_round_aux 53 1024 s (Zpos (Pos.shiftl_nat v k)) (- Z.of_nat k)
    loc_Exact
  = finiteDouble s v.
Proof.
  intros Hv Hk. unfold finiteDouble.
  assert (0 < Zpos (Pos.size v)) as Hd by lia.
  remember (Zpos (Pos.size v)) as d eqn:Hdeq.
  remember (Z.to_nat (d + Z.of_nat k - 53)) as n eqn:Hn.
  remember (Z.to_nat (53 - d)) as j eqn:Hj.
  assert (k = (j + n)%nat) as Hkj by lia.
  assert (shr_fexp 53 1024 (Zpos (Pos.shiftl_nat v k)) (- Z.of_nat k)
            loc_Exact
          = (Build_shr_record (Zpos (Pos.shiftl_nat v j)) false false,
             d - 53)) as Hshr.
  { unfold shr_fexp, shr. simpl Zdigits2.
    rewrite digits2_size, size_shiftl_nat, <- Hdeq.
    replace (fexp 53 1024 (d + Z.of_nat k + - Z.of_nat k)) with (d - 53)
      by (unfold fexp, emin; lia).
    destruct (d - 53 - - Z.of_nat k) as [|p|p] eqn:Hp.
    - simpl. f_equal; [|lia]. do 3 f_equal. lia.
    - rewrite iter_pos_nat. simpl shr_record_of_loc.
      replace (Pos.to_nat p) with n by lia.
      rewrite Hkj, <- shiftl_nat_add, iter_shr_exact. f_equal. lia.
    - lia. }
  unfold binary_round_aux. rewrite Hshr. simpl shr_m. simpl loc_of_shr_record.
  simpl round_nearest_even.
  assert (shr_fexp 53 1024 (Zpos (Pos.shiftl_nat v j)) (d - 53) loc_Exact
          = (Build_shr_record (Zpos (Pos.shiftl_nat v j)) false false,
             d - 53)) as Hshr'.
  { unfold shr_fexp, shr. simpl Zdigits2.
    rewrite digits2_size, size_shiftl_nat, <- Hdeq.
    replace (fexp 53 1024 (d + Z.of_nat j + (d - 53))) with (d - 53)
      by (unfold fexp, emin; lia).
    now rewrite Z.sub_diag. }
  rewrite Hshr'. simpl shr_m.
  replace (d - 53 <=? 1024 - 53) with true
    by (symmetry; apply Z.leb_le; lia).
  reflexivity.
Qed.

Lemma binary_round_exact s v k :
  Zpos (Pos.size v) ≤ 53 →
  binary_round 53 1024 s (Pos.shiftl_nat v k) (- Z.of_nat k)
  = finiteDouble s v.
Proof.
  intros Hv. unfold binary_round, shl_align.
  rewrite digits2_size, size_shiftl_nat.
  assert (0 < Zpos (Pos.size v)) as Hd by lia.
  remember (Zpos (Pos.size v)) as d eqn:Hdeq.
  replace (fexp 53 1024 (d + Z.of_nat k + - Z.of_nat k)) with (d - 53)
    by (unfold fexp, emin; lia).
  destruct (d - 53 - - Z.of_nat k) as [|p|p] eqn:Hp.
  - apply binary_round_aux_exact; lia.
  - apply binary_round_aux_exact; lia.
  - rewrite iter_xO_shiftl_nat, shiftl_nat_add.
    replace (d - 53) with (- Z.of_nat (k + Pos.to_nat p)) by lia.
    apply binary_round_aux_exact; lia.
Qed.

Lemma number_pos v :
  Zpos (Pos.size v) ≤ 53 → number (Zpos v) = finiteDouble false v.
Proof. intros Hv. exact (binary_round_exact false v 0 Hv). Qed.

Lemma number_neg v :
  Zpos (Pos.size v) ≤ 53 → number (Zneg v) = finiteDouble true v.
Proof. intros Hv. exact (binary_round_exact true v 0 Hv). Qed.

Lemma size_bounds v :
  2 ^ (Zpos (Pos.size v) - 1) ≤ Zpos v < 2 ^ Zpos (Pos.size v).
Proof.
  induction v as [v IH|v IH|]; simpl Pos.size.
  - rewrite Pos2Z.inj_succ.
    replace (Z.succ (Zpos (Pos.size v)) - 1)
      with (Z.succ (Zpos (Pos.size v) - 1)) by lia.
    rewrite !Z.pow_succ_r by lia. lia.
  - rewrite Pos2Z.inj_succ.
    replace (Z.succ (Zpos (Pos.size v)) - 1)
      with (Z.succ (Zpos (Pos.size v) - 1)) by lia.
    rewrite !Z.pow_succ_r by lia. lia.
  - simpl. lia.
Qed.

Lemma size_le_53 v : Zpos v < 2 ^ 53 → Zpos (Pos.size v) ≤ 53.
Proof.
  intros Hv. destruct (size_bounds v) as [Hlo _].
  destruct (Z_le_gt_dec (Zpos (Pos.size v)) 53) as [|Hgt]; [assumption|].
  assert (2 ^ 53 ≤ 2 ^ (Zpos (Pos.size v) - 1))
    by (apply Z.pow_le_mono_r; lia).
  lia.
Qed.

Lemma number_finite z :
  z ≠ 0 → Z.abs z < 2 ^ 53 →
  number z = finiteDouble (z <? 0) (Z.to_pos (Z.abs z)).
Proof.
  intros Hz Hb. destruct z as [|v|v]; [easy| |].
  - apply number_pos, size_le_53. exact Hb.
  - apply number_neg, size_le_53. exact Hb.
Qed.

Lemma binary_normalize_exact z k :
  Z.abs z < 2 ^ 53 →
  binary_normalize 53 1024 (z * 2 ^ Z.of_nat k) (- Z.of_nat k) false
  = number z.
Proof.
  intros Hb. destruct z as [|v|v].
  - reflexivity.
  - rewrite <- Zpos_shiftl_nat. simpl binary_normalize.
    rewrite binary_round_exact by now apply size_le_53.
    symmetry. now apply number_pos, size_le_53.
  - change (Zneg v) with (- Zpos v) at 1.
    rewrite Z.mul_opp_l, <- Zpos_shiftl_nat. simpl binary_normalize.
    rewrite binary_round_exact by now apply size_le_53.
    symmetry. now apply number_neg, size_le_53.
Qed.

Lemma shl_align_fst m e e' :
  e' ≤ e → fst (shl_align m e e') = Pos.shiftl_nat m (Z.to_nat (e - e')).
Proof.
  intros He. unfold shl_align. destruct (e' - e) as [|p|p] eqn:Hp.
  - replace (e - e') with 0 by lia. reflexivity.
  - lia.
  - simpl fst. rewrite iter_xO_shiftl_nat. f_equal. lia.
Qed.

Lemma cond_Zopp_value z :
  z ≠ 0 → cond_Zopp (z <? 0) (Zpos (Z.to_pos (Z.abs z))) = z.
Proof. destruct z; easy. Qed.

(** Adding two integers is exact while the operands and the sum stay below
    2^53 in absolute value. *)
Lemma numAdd_exact a b :
  Z.abs a < 2 ^ 53 → Z.abs b < 2 ^ 53 → Z.abs (a + b) < 2 ^ 53 →
  numAdd (number a) (number b) = number (a + b).
Proof.
  intros Ha Hb Hab.
  destruct (Z.eq_dec a 0) as [->|Hna].
  { rewrite Z.add_0_l. destruct (Z.eq_dec b 0) as [->|Hnb]; [reflexivity|].
    rewrite (number_finite b) by assumption. reflexivity. }
  destruct (Z.eq_dec b 0) as [->|Hnb].
  { rewrite Z.add_0_r, (number_finite a) by assumption. reflexivity. }
  rewrite (number_finite a), (number_finite b) by assumption.
  unfold numAdd, finiteDouble, SFadd.
  set (va := Z.to_pos (Z.abs a)). set (vb := Z.to_pos (Z.abs b)).
  assert (Zpos (Pos.size va) ≤ 53) as Hsa
    by (apply size_le_53; unfold va; lia).
  assert (Zpos (Pos.size vb) ≤ 53) as Hsb
    by (apply size_le_53; unfold vb; lia).
  remember (Z.min (Zpos (Pos.size va) - 53) (Zpos (Pos.size vb) - 53))
    as ez eqn:Hez.
  rewrite !shl_align_fst, !shiftl_nat_add by lia.
  remember (Z.to_nat (- ez)) as k eqn:Hk.
  replace (Z.to_nat (53 - Zpos (Pos.size va))
           + Z.to_nat (Zpos (Pos.size va) - 53 - ez))%nat with k by lia.
  replace (Z.to_nat (53 - Zpos (Pos.size vb))
           + Z.to_nat (Zpos (Pos.size vb) - 53 - ez))%nat with k by lia.
  replace ez with (- Z.of_nat k) by lia.
  rewrite <- (binary_normalize_exact (a + b) k Hab). f_equal.
  rewrite !Zpos_shiftl_nat.
  pose proof (cond_Zopp_value a Hna) as Ea.
  pose proof (cond_Zopp_value b Hnb) as Eb. fold va in Ea. fold vb in Eb.
  clearbody va vb.
  destruct (a <? 0), (b <? 0); unfold cond_Zopp in *; subst a b; ring.
Qed.

Lemma size_mul va vb :
  Zpos (Pos.size va) + Zpos (Pos.size vb) ≤ Zpos (Pos.size (va * vb)) + 1.
Proof.
  destruct (size_bounds va) as [Ha _], (size_bounds vb) as [Hb _].
  destruct (size_bounds (va * vb)) as [_ Hab].
  assert (2 ^ (Zpos (Pos.size va) - 1 + (Zpos (Pos.size vb) - 1))
          < 2 ^ Zpos (Pos.size (va * vb))) as Hlt.
  { rewrite Z.pow_add_r by lia. rewrite Pos2Z.inj_mul in Hab. nia. }
  apply Z.pow_lt_mono_r_iff in Hlt; lia.
Qed.

(** Multiplying two non-zero integers is exact while the product stays
    below 2^53 in absolute value. *)
Lemma numMul_exact a b :
  a ≠ 0 → b ≠ 0 → Z.abs (a * b) < 2 ^ 53 →
  numMul (number a) (number b) = number (a * b).
Proof.
  intros Hna Hnb Hab.
  assert (Z.abs a < 2 ^ 53 ∧ Z.abs b < 2 ^ 53) as [Ha Hb]
    by (rewrite Z.abs_mul in Hab; nia).
  rewrite (number_finite a), (number_finite b) by assumption.
  rewrite (number_finite (a * b)) by (try assumption; nia).
  unfold numMul, finiteDouble at 1 2, SFmul.
  set (va := Z.to_pos (Z.abs a)). set (vb := Z.to_pos (Z.abs b)).
  assert (Z.to_pos (Z.abs (a * b)) = (va * vb)%positive) as ->
    by (unfold va, vb; rewrite Z.abs_mul, Z2Pos.inj_mul; lia).
  assert (Zpos (va * vb) < 2 ^ 53) as Hv.
  { rewrite Pos2Z.inj_mul. unfold va, vb. rewrite !Z2Pos.id by lia.
    now rewrite <- Z.abs_mul. }
  assert (Zpos (Pos.size va) ≤ 53) as Hsa
    by (apply size_le_53; unfold va; lia).
  assert (Zpos (Pos.size vb) ≤ 53) as Hsb
    by (apply size_le_53; unfold vb; lia).
  pose proof (size_le_53 _ Hv) as Hsv.
  pose proof (size_mul va vb) as Hsm.
  remember (Z.to_nat (53 - Zpos (Pos.size va))
            + Z.to_nat (53 - Zpos (Pos.size vb)))%nat as k eqn:Hk.
  assert ((Pos.shiftl_nat va (Z.to_nat (53 - Zpos (Pos.size va)))
           * Pos.shiftl_nat vb (Z.to_nat (53 - Zpos (Pos.size vb))))%positive
          = Pos.shiftl_nat (va * vb) k) as ->.
  { apply Pos2Z.inj. rewrite Pos2Z.inj_mul, !Zpos_shiftl_nat, Pos2Z.inj_mul.
    rewrite Hk, Nat2Z.inj_add, Z.pow_add_r by lia. ring. }
  replace (Zpos (Pos.size va) - 53 + (Zpos (Pos.size vb) - 53))
    with (- Z.of_nat k) by lia.
  rewrite binary_round_aux_exact by lia.
  f_equal. destruct a, b; easy.
Qed.

(** One step of the running sum. *)
Lemma numAdd_numMul_exact c a b :
  Z.abs c < 2 ^ 53 → Z.abs (a * b) < 2 ^ 53 →
  Z.abs a < 2 ^ 53 → Z.abs b < 2 ^ 53 →
  Z.abs (c + a * b) < 2 ^ 53 →
  numAdd (number c) (numMul (number a) (number b)) = number (c + a * b).
Proof.
  intros Hc Hab Ha Hb Hs.
  destruct (Z.eq_dec a 0) as [->|Hna].
  { rewrite Z.mul_0_l, Z.add_0_r.
    assert (exists s, numMul (number 0) (number b) = S754_zero s) as [s ->].
    { destruct (Z.eq_dec b 0) as [->|Hnb]; [now exists false|].
      rewrite (number_finite b) by assumption. now eexists. }
    destruct (Z.eq_dec c 0) as [->|Hnc]; [now destruct s|].
    rewrite (number_finite c) by assumption. reflexivity. }
  destruct (Z.eq_dec b 0) as [->|Hnb].
  { rewrite Z.mul_0_r, Z.add_0_r.
    rewrite (number_finite a) by assumption.
    destruct (Z.eq_dec c 0) as [->|Hnc]; [now destruct (a <? 0)|].
    rewrite (number_finite c) by assumption. reflexivity. }
  rewrite numMul_exact by assumption. now apply numAdd_exact.
Qed.

(** The running sum of a list in the safe range is the integer sum. *)
Lemma sumValues_exact_from (c : Z) (l : list Product.t) :
  Forall
    (λ p, Z.abs (Product.price p) < 2 ^ 53
          ∧ Z.abs (Product.quantity p) < 2 ^ 53) l →
  Z.abs c + magnitude l < 2 ^ 53 →
  sumValues (number c) l = number (c + inventoryValue l).
Proof.
  revert c. induction l as [|p l IH]; intros c Hall Hsum.
  - simpl. by rewrite Z.add_0_r.
  - apply Forall_cons in Hall as [[Hp Hq] Hall].
    pose proof (magnitude_nonneg l) as Hm.
    cbn [sumValues magnitude inventoryValue] in *.
    rewrite numAdd_numMul_exact by lia.
    rewrite IH by (done || lia). f_equal. lia.
Qed.

Lemma sumValues_exact (l : list Product.t) :
  safeValues l → sumValues (number 0) l = number (inventoryValue l).
Proof.
  intros [Hall Hsum]. rewrite (sumValues_exact_from 0 l Hall) by (simpl; lia).
  done.
Qed.

End DoubleArithmetic.

Lemma countStatus_partition (l : list Product.t) :
  (countStatus InStock l + countStatus LowStock l
   + countStatus OutOfStock l)%nat = length l.
Proof.
  induction l as [|p l IH]; simpl; [done|].
  destruct (Product.status p); repeat case_decide; try congruence; lia.
Qed.

(** ** The adapter on well-formed states *)

Lemma fmap_id_omap_lookup (m : gmap string Product.t) (l : list string) :
  Forall (λ k, is_Some (m !! k)) l →
  map_Forall (λ k p, Product.id p = k) m →
  Product.id <$> omap (λ i, m !! i) l = l.
Proof.
  intros Hl Hk. induction Hl as [|k l [p Hp] _ IH]; simpl; [done|].
  rewrite Hp. csimpl. rewrite IH. f_equal. by apply (Hk k p).
Qed.

Lemma omap_lookup_total (m : gmap string Product.t) (l : list string) :
  Forall (λ k, is_Some (m !! k)) l →
  (λ i, m !! i) <$> l = Some <$> omap (λ i, m !! i) l.
Proof.
  intros Hl. induction Hl as [|k l [p Hp] _ IH]; simpl; [done|].
  rewrite Hp. csimpl. by rewrite IH.
Qed.

Lemma ids_of_listed s :
  listed s → keyed s →
  Product.id <$> omap (λ i, entities s !! i) (ids s) = ids s.
Proof. apply fmap_id_omap_lookup. Qed.

(** On a listed state [selectAllProducts] is the adapter's [selectAll]:
    no id maps to [undefined]. *)
Lemma selectAllRaw_listed s :
  listed s → selectAllRaw s = Some <$> selectAllProducts s.
Proof. apply omap_lookup_total. Qed.

Lemma length_selectAll_listed s :
  listed s → length (selectAllProducts s) = length (ids s).
Proof.
  intros Hl.
  assert (length (selectAllRaw s) = length (ids s)) as <-
    by apply length_fmap.
  rewrite selectAllRaw_listed by done. by rewrite length_fmap.
Qed.

Lemma addOne_present s p : Product.id p ∈ ids s → addOne s p = s.
Proof.
  intros Hin. unfold addOne, addMany. simpl.
  rewrite bool_decide_eq_false_2; [done|]. by intros Hn.
Qed.

Lemma addOne_fresh s p :
  Product.id p ∉ ids s →
  ∃ l, addOne s p = set_adapter s l (<[Product.id p := p]> (entities s))
       ∧ l ≡ₚ Product.id p
              :: (Product.id <$> omap (λ i, entities s !! i) (ids s)).
Proof.
  intros Hn. unfold addOne, addMany. simpl.
  rewrite bool_decide_eq_true_2 by done.
  unfold mergeFunction. simpl.
  eexists. split; [reflexivity|].
  destruct (omap _ (ids s)) as [|q l]; [done|].
  change (foldl _ (q :: l) [p]) with (insertSorted sortComparer p (q :: l)).
  by rewrite insertSorted_perm.
Qed.

Lemma addOne_wellFormed s p :
  wellFormed s → Product.id p ∉ ids s →
  wellFormed (addOne s p)
  ∧ ids (addOne s p) ≡ₚ Product.id p :: ids s
  ∧ entities (addOne s p) = <[Product.id p := p]> (entities s).
Proof.
  intros (Hnd & Hl & Hk & Hc) Hn.
  destruct (addOne_fresh s p Hn) as (l & -> & Hperm).
  rewrite ids_of_listed in Hperm by done.
  destruct s as [il es st er fl sb so].
  unfold wellFormed, listed, keyed, covered in *; simpl in *.
  split_and!; try done.
  - rewrite Hperm. by constructor.
  - rewrite Forall_forall. intros k Hkl. rewrite Hperm in Hkl.
    apply elem_of_cons in Hkl as [->|Hkl].
    + rewrite lookup_insert_eq. by eexists.
    + rewrite Forall_forall in Hl.
      destruct (decide (Product.id p = k)) as [->|Hne].
      * rewrite lookup_insert_eq. by eexists.
      * rewrite lookup_insert_ne by done. by apply Hl.
  - intros k q. rewrite lookup_insert_Some.
    intros [[<- <-]|[_ Hq]]; [done|]. by apply (Hk k q).
  - intros k q. rewrite lookup_insert_Some, Hperm, elem_of_cons.
    intros [[<- <-]|[_ Hq]]; [by left|]. right. by apply (Hc k q).
Qed.

Lemma removeOne_absent s key :
  entities s !! key = None → removeOne s key = s.
Proof.
  intros Hnone. unfold removeOne. rewrite Hnone.
  case_decide as Hs; [|done]. by destruct Hs.
Qed.

Lemma removeOne_present s key :
  is_Some (entities s !! key) →
  removeOne s key
  = set_adapter s
      (List.filter
         (λ i, bool_decide (is_Some (delete key (entities s) !! i)))
         (ids s))
      (delete key (entities s)).
Proof. intros Hs. unfold removeOne. by rewrite decide_True. Qed.

(** ** Properties of the store *)

(** C10. The three status buckets of the statistics partition the
    collection, for every store state: each bucket counts the entities
    that carry its status, every entity carries one of the three, and
    [inStock + lowStock + outOfStock] is the number of entities of the
    store, which [total] reports. *)
Theorem stats_buckets_partition (s : State) :
  let stats := selectInventoryStats s in
  let all := selectAllProducts s in
  (inStock stats + lowStock stats + outOfStock stats)%nat = length all
  ∧ total stats = length all
  ∧ inStock stats = countStatus InStock all
  ∧ lowStock stats = countStatus LowStock all
  ∧ outOfStock stats = countStatus OutOfStock all
  ∧ (∀ p, p ∈ all →
       Product.status p = InStock ∨ Product.status p = LowStock
       ∨ Product.status p = OutOfStock).
Proof.
  unfold selectInventoryStats, inventoryStats. simpl.
  rewrite !length_filter_status.
  split_and!; try done; [apply countStatus_partition|].
  intros p _. destruct (Product.status p); auto.
Qed.

(** C5, as amended. The statistics are computed over all entities,
    whatever the filter: the total count, the count of each status, and the
    distinct category labels; [totalValue] is the sum of price times
    quantity as doubles add it up, from 0 in the order of the entities,
    and it is the sum itself when the prices, the quantities and the sum
    of the absolute values stay below 2^53. *)
Theorem selectInventoryStats_spec (s : State) :
  let stats := selectInventoryStats s in
  let all := selectAllProducts s in
  total stats = length all
  ∧ inStock stats = countStatus InStock all
  ∧ lowStock stats = countStatus LowStock all
  ∧ outOfStock stats = countStatus OutOfStock all
  ∧ totalValue stats = sumValues (number 0) all
  ∧ (safeValues all → totalValue stats = number (inventoryValue all))
  ∧ NoDup (statsCategories stats)
  ∧ (∀ c, c ∈ statsCategories stats
          ↔ ∃ p, p ∈ all ∧ Product.category p = c)
  ∧ (∀ f, selectInventoryStats (set_filter s f) = stats).
Proof.
  unfold selectInventoryStats, inventoryStats. simpl.
  split_and!; try done; try apply length_filter_status;
    try apply foldl_sumValues.
  - intros Hsafe. rewrite foldl_sumValues. by apply sumValues_exact.
  - apply NoDup_arrayFromSet.
  - intros c. rewrite elem_of_arrayFromSet, list_elem_of_fmap.
    split.
    + intros [(p & -> & Hp) _]. by exists p.
    + intros (p & Hp & <-). split; [by exists p|]. apply not_elem_of_nil.
Qed.

(** C6. With the filter [{category: "all", status: "all", searchTerm: ""}]
    the filtered view is the list of all entities. *)
Theorem selectFilteredProducts_identity (s : State) :
  filter s = Filter.mk "all" "all" "" →
  selectFilteredProducts s = selectAllProducts s.
Proof.
  intros Hf. unfold selectFilteredProducts, selectInventoryFilter.
  rewrite Hf. by apply filter_all_true.
Qed.

(** C4. A failing load leaves [entities] and [ids] as they were, so the
    entity count stays the same, and ends with the request status
    [failed] and the failure message as request error. *)
Theorem load_failure_preserves_entities (now : string) (s : State)
    (count : option Z) (env : FetchEnv) (message : string) :
  fetchInventory count env = Rejected message →
  let s' := load now s count env in
  entities s' = entities s
  ∧ ids s' = ids s
  ∧ length (selectAllProducts s') = length (selectAllProducts s)
  ∧ status s' = Failed
  ∧ error s' = Some message
  ∧ message = "Network error: Failed to fetch inventory".
Proof.
  intros Hrej. unfold load. rewrite Hrej. simpl.
  split_and!; try done.
  unfold fetchInventory in Hrej.
  destruct (Qlt_le_dec _ _); by inversion Hrej.
Qed.

(** C2, as amended. [updateStock] on an absent id returns with the state
    unchanged (no error is raised). On a present id it sets the quantity,
    recomputes the status from the quantity and the entity's [minStock]
    (0: out of stock, below [minStock]: low stock, else in stock) and
    refreshes [lastUpdated]; every other entity, [ids] and the rest of the
    state stay as they were. *)
Theorem updateStock_spec (now : string) (s : State) (id : string)
    (quantity : Z) :
  (entities s !! id = None →
   dispatch now s (UpdateStock id quantity) = Returned s)
  ∧ (∀ p, entities s !! id = Some p →
       ∃ s', dispatch now s (UpdateStock id quantity) = Returned s'
         ∧ entities s' !! id
           = Some (Product.mk (Product.id p) (Product.name p)
                     (Product.sku p) (Product.category p)
                     (Product.price p) quantity (Product.minStock p)
                     (stockStatus quantity (Product.minStock p)) now)
         ∧ (∀ k, k ≠ id → entities s' !! k = entities s !! k)
         ∧ ids s' = ids s
         ∧ status s' = status s ∧ error s' = error s
         ∧ filter s' = filter s
         ∧ sortBy s' = sortBy s ∧ sortOrder s' = sortOrder s).
Proof.
  unfold dispatch. simpl. unfold updateStock. split.
  - by intros ->.
  - intros p ->. eexists. split; [reflexivity|]. simpl.
    split_and!; try done.
    + by rewrite lookup_insert_eq.
    + intros k Hk. by rewrite lookup_insert_ne.
Qed.

(** C8. On a state whose ids all have an entity stored under its own id,
    [remove] takes the id out of [entities] and [ids], and no entity of
    [selectAllProducts] carries it afterwards; removing an absent id is
    not an error and changes nothing, the entity count included. *)
Theorem remove_spec (now : string) (s : State) (id : string) :
  listed s → keyed s →
  let s' := remove now s id in
  deleteProduct id = Fulfilled id
  ∧ dispatch now s (DeleteProductFulfilled id) = Returned s'
  ∧ entities s' !! id = None
  ∧ (id ∉ ids s')
  ∧ (∀ p, p ∈ selectAllProducts s' → Product.id p ≠ id)
  ∧ (entities s !! id = None →
     s' = s ∧ length (selectAllProducts s') = length (selectAllProducts s)).
Proof.
  intros Hl Hk. simpl. unfold remove. simpl.
  split; [done|]. split; [done|].
  destruct (entities s !! id) as [q|] eqn:Hq.
  - rewrite removeOne_present by (rewrite Hq; by eexists). simpl.
    split_and!; try done.
    + apply lookup_delete_eq.
    + rewrite list_elem_of_In, filter_In, bool_decide_eq_true.
      rewrite lookup_delete_eq. intros [_ [? ?]]. done.
    + intros p. unfold selectAllProducts. simpl.
      rewrite list_elem_of_omap. intros (k & _ & Hp) Heq.
      apply lookup_delete_Some in Hp as [Hne Hp].
      apply Hne. rewrite <- Heq. by apply (Hk k p).
  - rewrite removeOne_absent by done.
    split_and!; try done.
    + intros Hin. unfold listed in Hl. rewrite Forall_forall in Hl.
      destruct (Hl id Hin) as [? ?]. congruence.
    + intros p. unfold selectAllProducts.
      rewrite list_elem_of_omap. intros (k & _ & Hp) Heq.
      assert (Product.id p = k) as Hpk by by apply (Hk k p). congruence.
Qed.

Lemma add_addOne now s d dateNow :
  ∃ p, addProduct d dateNow now = Fulfilled p
    ∧ Product.id p = "PROD-" +:+ pretty dateNow
    ∧ add now s d dateNow = addOne s p.
Proof. eexists. by split_and!. Qed.

Lemma add_wellFormed now s d dateNow :
  wellFormed s → wellFormed (add now s d dateNow).
Proof.
  intros Hwf. destruct (add_addOne now s d dateNow) as (p & _ & _ & ->).
  destruct (decide (Product.id p ∈ ids s)) as [Hin|Hn].
  - by rewrite addOne_present.
  - by apply addOne_wellFormed.
Qed.

Lemma prod_id_inj (t t' : Z) :
  "PROD-" +:+ pretty t = "PROD-" +:+ pretty t' → t = t'.
Proof. intros Heq. apply (inj pretty). by simplify_eq/=. Qed.

(** C3, as amended. [addProduct] validates nothing: for every draft, an
    empty name, sku or category and a negative price or quantity
    included, the thunk is fulfilled with the draft's fields, the id
    [PROD-<Date.now()>], the computed status and the timestamp; the
    reducer returns, and the entity is in the store afterwards whenever
    its id was not listed before. *)
Theorem addProduct_accepts_every_draft (now : string) (s : State)
    (d : ProductData.t) (dateNow : Z) :
  ∃ p, addProduct d dateNow now = Fulfilled p
    ∧ p = Product.mk ("PROD-" +:+ pretty dateNow) (ProductData.name d)
            (ProductData.sku d) (ProductData.category d)
            (ProductData.price d) (ProductData.quantity d)
            (ProductData.minStock d)
            (stockStatus (ProductData.quantity d) (ProductData.minStock d))
            now
    ∧ dispatch now s (AddProductFulfilled p)
      = Returned (add now s d dateNow)
    ∧ (Product.id p ∉ ids s →
       entities (add now s d dateNow) !! Product.id p = Some p
       ∧ Product.id p ∈ ids (add now s d dateNow)).
Proof.
  eexists. split; [reflexivity|]. split; [reflexivity|].
  split; [reflexivity|]. intros Hn.
  unfold add. simpl.
  destruct (addOne_fresh s _ Hn) as (l & -> & Hperm). simpl. split.
  - apply lookup_insert_eq.
  - rewrite Hperm. left.
Qed.

(** C7, as amended. Every add is fulfilled with an entity whose id is
    [PROD-] followed by its reading of [Date.now()]. Repeated adds keep a
    well-formed store well-formed, its ids pairwise distinct; and when the
    readings of the calls are pairwise distinct and none of their ids is
    in the store at the start, every call is given an id that the store
    does not hold when the call is made, and the store grows by one entity
    with each call. *)
Theorem repeated_adds_keep_ids_unique (s : State)
    (calls : list (string * ProductData.t * Z)) :
  wellFormed s →
  Forall
    (λ call,
       ∃ p, addProduct call.1.2 call.2 call.1.1 = Fulfilled p
            ∧ Product.id p = "PROD-" +:+ pretty call.2)
    calls
  ∧ wellFormed (addAll s calls)
  ∧ NoDup (ids (addAll s calls))
  ∧ (NoDup calls.*2 →
     (∀ t, t ∈ calls.*2 → ("PROD-" +:+ pretty t) ∉ ids s) →
     eachIdFresh s calls
     ∧ length (ids (addAll s calls)) = (length (ids s) + length calls)%nat).
Proof.
  revert s. induction calls as [|[[now d] t] calls IH]; intros s Hwf.
  - simpl. split_and!; [done|done|by destruct Hwf|]. intros _ _. split; lia.
  - pose proof (add_wellFormed now s d t Hwf) as Hwf'.
    destruct (IH _ Hwf') as (IH0 & IH1 & IH2 & IH3).
    split_and!; [|done..|].
    { constructor; [|done].
      destruct (add_addOne now s d t) as (p & Hp & Hid & _). by exists p. }
    intros Hnd Hfresh. apply NoDup_cons in Hnd as [Ht Hnd].
    assert (("PROD-" +:+ pretty t) ∉ ids s) as Hn
      by (apply Hfresh; left).
    destruct (add_addOne now s d t) as (p & Hp & Hid & Hadd).
    rewrite <- Hid in Hn.
    destruct (addOne_wellFormed s p Hwf Hn) as (_ & Hperm & _).
    destruct IH3 as [IHfresh IHlen]; [done| |].
    { intros t' Ht'. rewrite Hadd, Hperm, Hid, elem_of_cons.
      intros [Heq|Hin].
      - apply prod_id_inj in Heq. subst t'. by apply Ht.
      - revert Hin. apply Hfresh. by right. }
    split.
    + cbn [eachIdFresh]. rewrite Hp. by split.
    + cbn [addAll]. rewrite IHlen, Hadd, Hperm. simpl. lia.
Qed.

(** C1, at the failing input. A product is loaded with quantity 50 and
    [minStock] 10, hence in stock; [updateProduct] then sets its quantity
    to 0 and the stored status stays [in-stock], where the rule gives
    [out-of-stock]. *)
Theorem update_leaves_stale_status :
  ∃ s p, reachable s
    ∧ entities s !! "PROD-00001" = Some p
    ∧ Product.quantity p = 0
    ∧ Product.status p = InStock
    ∧ specStatus (Product.quantity p) (Product.minStock p) = OutOfStock
    ∧ ¬ statusConsistent s.
Proof.
  set (env := mkFetchEnv (1 # 2)
                (λ _, mkDraw (1 # 2) (1 # 2) (1 # 4) 1700000000000 (1 # 3))).
  set (trace :=
         [("t0", LoadStart);
          ("t1", LoadSettle (Some 1) env);
          ("t2", Update "PROD-00001"
                   (Changes.mk None None None None None (Some 0)
                      None None None))]).
  destruct (handleAll initialWorld trace) as [w|] eqn:Hw;
    [|by vm_compute in Hw].
  assert (∃ p, entities (store w) !! "PROD-00001" = Some p
               ∧ Product.quantity p = 0 ∧ Product.minStock p = 10
               ∧ Product.status p = InStock) as (p & Hp & Hq & Hm & Hs).
  { vm_compute in Hw. injection Hw as <-. eexists. by vm_compute. }
  exists (store w), p. split_and!; try done.
  - by exists trace, w.
  - rewrite Hq. reflexivity.
  - intros Hc. specialize (Hc _ _ Hp). simpl in Hc.
    rewrite Hq, Hm, Hs in Hc. by vm_compute in Hc.
Qed.

(** C9, at the failing input. Two loads overlap; the first settles with
    the network error, the second succeeds: the request status is
    [succeeded] and the request error still holds the failure message. *)
Theorem overlapping_loads_leave_stale_error :
  ∃ s, reachable s
    ∧ status s = Succeeded
    ∧ error s = Some "Network error: Failed to fetch inventory"
    ∧ ¬ errorConsistent s.
Proof.
  set (d := λ _ : nat, mkDraw (1 # 2) (1 # 2) (1 # 4) 1700000000000 (1 # 3)).
  set (trace :=
         [("t0", LoadStart);
          ("t1", LoadStart);
          ("t2", LoadSettle (Some 1) (mkFetchEnv (1 # 20) d));
          ("t3", LoadSettle (Some 1) (mkFetchEnv (1 # 2) d))]).
  destruct (handleAll initialWorld trace) as [w|] eqn:Hw;
    [|by vm_compute in Hw].
  assert (status (store w) = Succeeded
          ∧ error (store w)
            = Some "Network error: Failed to fetch inventory") as [Hs He].
  { vm_compute in Hw. injection Hw as <-. by vm_compute. }
  exists (store w). split_and!; try done.
  - by exists trace, w.
  - intros Hc. unfold errorConsistent in Hc. rewrite Hs, He in Hc.
    by specialize (Hc ltac:(done)).
Qed.
(** ** Invariants of the histories *)

Lemma handleAll_invariant (P : World → Prop) :
  (∀ w now e w', P w → handle w now e = Some w' → P w') →
  ∀ trace w0 w, P w0 → handleAll w0 trace = Some w → P w.
Proof.
  intros Hstep trace.
  induction trace as [|[now e] trace IH]; intros w0 w H0; simpl.
  - by intros [= <-].
  - destruct (handle w0 now e) as [w1|] eqn:Hw1; [|done].
    apply IH. by eapply Hstep.
Qed.

Lemma handleAllSequential_invariant (P : World → Prop) :
  (∀ w now e w',
     P w → sequential w e = true → handle w now e = Some w' → P w') →
  ∀ trace w0 w, P w0 → handleAllSequential w0 trace = Some w → P w.
Proof.
  intros Hstep trace.
  induction trace as [|[now e] trace IH]; intros w0 w H0; simpl.
  - by intros [= <-].
  - destruct (sequential w0 e) eqn:Hseq; [|done].
    destruct (handle w0 now e) as [w1|] eqn:Hw1; [|done].
    apply IH. by eapply Hstep.
Qed.

(** The adapter never touches the request fields. *)
Lemma mergeFunction_request s items u r :
  status (mergeFunction s items u r) = status s
  ∧ error (mergeFunction s items u r) = error s.
Proof. done. Qed.

Lemma addMany_request s items existing :
  status (addMany s items existing) = status s
  ∧ error (addMany s items existing) = error s.
Proof. unfold addMany. by destruct (List.filter _ _). Qed.

Lemma updateOne_request s id changes :
  status (updateOne s id changes) = status s
  ∧ error (updateOne s id changes) = error s.
Proof.
  unfold updateOne. destruct (entities s !! id); [|done]. by case_decide.
Qed.

Lemma removeOne_request s key :
  status (removeOne s key) = status s ∧ error (removeOne s key) = error s.
Proof. unfold removeOne. by case_decide. Qed.

Lemma updateStock_request now s id quantity :
  status (updateStock now s id quantity) = status s
  ∧ error (updateStock now s id quantity) = error s.
Proof. unfold updateStock. by destruct (entities s !! id). Qed.

(** Only the three [fetchInventory] actions change the request fields. *)
Lemma inventoryReducer_request now s a :
  isFetchAction a = false →
  status (inventoryReducer now s a) = status s
  ∧ error (inventoryReducer now s a) = error s.
Proof.
  destruct a; simpl; try done; intros _.
  - apply updateStock_request.
  - apply addMany_request.
  - apply updateOne_request.
  - apply removeOne_request.
Qed.

Lemma settledOrLoading_frame s s' n :
  status s' = status s → error s' = error s →
  settledOrLoading (mkWorld s n) → settledOrLoading (mkWorld s' n).
Proof.
  unfold settledOrLoading, errorConsistent. simpl. by intros -> ->.
Qed.

Lemma settledOrLoading_step w now e w' :
  settledOrLoading w → sequential w e = true → handle w now e = Some w' →
  settledOrLoading w'.
Proof.
  destruct w as [s n]. intros HJ Hseq Hh.
  destruct e; simpl in Hh, Hseq.
  - apply bool_decide_eq_true in Hseq. simpl in Hseq. subst n.
    injection Hh as <-. by right.
  - destruct n as [|n]; [done|]. injection Hh as <-. left. simpl.
    destruct HJ as [[? _]|(Hn & Hs & He)]; [done|]. simpl in *.
    injection Hn as ->. split; [done|]. unfold errorConsistent.
    destruct (fetchInventory count env) as [payload|message].
    + intros _. etrans; [apply addMany_request|]. exact He.
    + by intros [].
  - injection Hh as <-. revert HJ.
    apply settledOrLoading_frame; apply addMany_request.
  - injection Hh as <-. revert HJ.
    apply settledOrLoading_frame; apply updateOne_request.
  - injection Hh as <-. revert HJ.
    apply settledOrLoading_frame; apply removeOne_request.
  - injection Hh as <-. revert HJ.
    apply settledOrLoading_frame; apply updateStock_request.
  - injection Hh as <-. revert HJ. by apply settledOrLoading_frame.
  - injection Hh as <-. revert HJ. by apply settledOrLoading_frame.
  - injection Hh as <-. revert HJ. by apply settledOrLoading_frame.
Qed.

(** X2. As long as loads do not overlap, the request error is null unless
    the request status is [failed]. *)
Lemma sequential_errorConsistent trace w :
  handleAllSequential initialWorld trace = Some w →
  errorConsistent (store w).
Proof.
  intros Hw.
  assert (settledOrLoading w) as [[_ ?]|(_ & _ & He)]; [|done|by intros _].
  revert Hw. apply (handleAllSequential_invariant settledOrLoading).
  - apply settledOrLoading_step.
  - by left.
Qed.

(** ** Well-formedness along the histories *)

Lemma wellFormed_perm s s' :
  ids s' ≡ₚ ids s → entities s' = entities s →
  wellFormed s → wellFormed s'.
Proof.
  unfold wellFormed, listed, keyed, covered.
  intros Hperm Hent (Hnd & Hl & Hk & Hc). rewrite Hent.
  split_and!; [by rewrite Hperm|by rewrite Hperm|done|].
  intros k p Hp. rewrite Hperm. by apply (Hc k p).
Qed.

Lemma entities_foldl_insert_Forall (P : string → Product.t → Prop)
    (l : list Product.t) (m : gmap string Product.t) :
  map_Forall P m → Forall (λ p, P (Product.id p) p) l →
  map_Forall P (foldl (λ m item, <[Product.id item := item]> m) m l).
Proof.
  intros Hm Hl. revert m Hm.
  induction Hl as [|p l Hp _ IH]; intros m Hm; simpl; [done|].
  apply IH. by apply map_Forall_insert_2.
Qed.

Lemma entities_foldl_insert_is_Some (l : list Product.t)
    (m : gmap string Product.t) k :
  is_Some (m !! k) ∨ k ∈ Product.id <$> l →
  is_Some (foldl (λ m item, <[Product.id item := item]> m) m l !! k).
Proof.
  revert m. induction l as [|p l IH]; intros m; csimpl.
  - rewrite elem_of_nil. by intros [?|[]].
  - intros H. apply IH. rewrite elem_of_cons in H.
    destruct (decide (Product.id p = k)) as [->|Hne].
    + left. rewrite lookup_insert_eq. by eexists.
    + rewrite lookup_insert_ne by done.
      destruct H as [?|[?|?]]; [by left|congruence|by right].
Qed.

(** What the merge step leaves: the added items written into [entities],
    and [ids] a rearrangement of the ids of the entities listed before and
    of the added items. *)
Lemma mergeFunction_spec s items u r :
  entities (mergeFunction s items u r)
  = foldl (λ m item, <[Product.id item := item]> m) (entities s) items
  ∧ ids (mergeFunction s items u r)
    ≡ₚ (Product.id
          <$> omap (λ i, entities s !! i)
                (if r then arrayFromSet [] (ids s) else ids s))
       ++ (Product.id <$> items).
Proof.
  unfold mergeFunction. simpl. split; [done|].
  rewrite <- fmap_app. apply fmap_Permutation.
  destruct (omap _ _) as [|q l] eqn:Hq.
  - by rewrite stableSort_perm.
  - destruct u; by rewrite ?stableSort_perm, foldl_insertSorted_perm.
Qed.

Lemma elem_of_replaceFirst (x y k : string) (l : list string) :
  NoDup l → x ∈ l →
  k ∈ replaceFirst x y l ↔ k = y ∨ (k ∈ l ∧ k ≠ x).
Proof.
  intros Hnd. induction Hnd as [|z l Hz Hnd IH]; simpl.
  - by intros ?%elem_of_nil.
  - rewrite elem_of_cons. case_decide as Hzx.
    + subst z. intros _. rewrite !elem_of_cons. split.
      * intros [->|Hk]; [by left|]. right. split; [by right|].
        by intros ->.
      * intros [->|[[->|Hk] Hne]]; [by left|done|by right].
    + intros [->|Hx]; [done|]. rewrite !elem_of_cons, (IH Hx).
      split.
      * intros [->|[->|[Hk Hne]]]; [|by left|].
        -- right. split; [by left|congruence].
        -- right. split; [by right|done].
      * intros [->|[[->|Hk] Hne]]; [right; by left|by left|].
        right. right. done.
Qed.

Lemma updateStock_wellFormed now s id quantity :
  wellFormed s → wellFormed (updateStock now s id quantity).
Proof.
  intros Hwf. unfold updateStock.
  destruct (entities s !! id) as [p|] eqn:Hp; [|done].
  destruct Hwf as (Hnd & Hl & Hk & Hc).
  unfold wellFormed, listed, keyed, covered in *. simpl.
  split_and!; [done| | |].
  - eapply Forall_impl; [exact Hl|]. intros k Hs. simpl in Hs.
    rewrite lookup_insert_is_Some. destruct (decide (id = k)); auto.
  - apply map_Forall_insert_2; [|done]. simpl. by apply (Hk id p).
  - apply map_Forall_insert_2; [|done]. by apply (Hc id p).
Qed.

Lemma removeOne_wellFormed s key :
  wellFormed s → wellFormed (removeOne s key).
Proof.
  intros Hwf. unfold removeOne. case_decide as Hs; [|done].
  destruct Hwf as (Hnd & Hl & Hk & Hc).
  unfold wellFormed, listed, keyed, covered in *. simpl.
  split_and!.
  - apply NoDup_ListNoDup, List.NoDup_filter. by apply NoDup_ListNoDup.
  - rewrite Forall_forall. intros k.
    rewrite list_elem_of_In, filter_In, bool_decide_eq_true. by intros [_ ?].
  - by apply map_Forall_delete.
  - intros k p Hp. rewrite list_elem_of_In, filter_In, bool_decide_eq_true.
    rewrite <- list_elem_of_In. split; [|by eexists].
    apply lookup_delete_Some in Hp as [_ Hp]. by apply (Hc k p).
Qed.

Lemma setAll_wellFormed s payload :
  NoDup (Product.id <$> payload) → wellFormed (setAll s payload).
Proof.
  intros Hnd. unfold setAll, addMany.
  rewrite filter_all_true
    by (intros p; apply bool_decide_eq_true_2, not_elem_of_nil).
  destruct payload as [|p payload].
  { unfold wellFormed, listed, keyed, covered. simpl.
    split_and!; [constructor|constructor|apply map_Forall_empty..]. }
  destruct (mergeFunction_spec (set_adapter s [] ∅) (p :: payload)
              false false) as [Hent Hids].
  change (ids (mergeFunction (set_adapter s [] ∅) (p :: payload) false false)
          ≡ₚ Product.id <$> p :: payload) in Hids.
  unfold wellFormed, listed, keyed, covered. rewrite Hent. simpl entities.
  split_and!.
  - by rewrite Hids.
  - rewrite Forall_forall. intros k Hk. rewrite Hids in Hk.
    apply entities_foldl_insert_is_Some. by right.
  - apply entities_foldl_insert_Forall; [apply map_Forall_empty|].
    by apply Forall_true.
  - apply entities_foldl_insert_Forall; [apply map_Forall_empty|].
    rewrite Forall_forall. intros q Hq. rewrite Hids.
    apply list_elem_of_fmap. by exists q.
Qed.

Lemma updateOne_wellFormed s id changes :
  wellFormed s → wellFormed (updateOne s id changes).
Proof.
  intros Hwf. unfold updateOne.
  destruct (entities s !! id) as [entity|] eqn:Hentity; [|done].
  set (entity' := assign entity changes).
  destruct Hwf as (Hnd & Hl & Hk & Hc).
  assert (id ∈ ids s) as Hid by by apply (Hc id entity).
  case_decide as Hnew.
  - (* the entity keeps its id *)
    set (s1 := set_adapter s (ids s) (<[id:=entity']> (entities s))).
    assert (wellFormed s1) as Hwf1.
    { unfold wellFormed, listed, keyed, covered in *. simpl.
      split_and!; [done| | |].
      - eapply Forall_impl; [exact Hl|]. intros k Hs. simpl in Hs.
        rewrite lookup_insert_is_Some. destruct (decide (id = k)); auto.
      - by apply map_Forall_insert_2.
      - by apply map_Forall_insert_2. }
    destruct (mergeFunction_spec s1 [] true false) as [Hent Hids].
    eapply wellFormed_perm; [| |exact Hwf1]; [|done].
    rewrite Hids, app_nil_r.
    destruct Hwf1 as (_ & Hl1 & Hk1 & _).
    change (Product.id <$> omap (λ i, entities s1 !! i) (ids s1) ≡ₚ ids s1).
    by rewrite ids_of_listed.
  - (* the entity moves to a new id *)
    set (newId := Product.id entity') in *.
    set (entities1 := <[newId:=entity']> (delete id (entities s))).
    set (s1 := set_adapter s (replaceFirst id newId (ids s)) entities1).
    set (s2 := set_adapter s (arrayFromSet [] (ids s1)) entities1).
    assert (∀ k, k ∈ ids s2 ↔ k = newId ∨ (k ∈ ids s ∧ k ≠ id)) as Hin.
    { intros k. simpl. rewrite elem_of_arrayFromSet.
      rewrite elem_of_replaceFirst by done.
      split; [by intros [? _]|]. intros ?. split; [done|apply not_elem_of_nil]. }
    assert (wellFormed s2) as Hwf2.
    { unfold wellFormed, listed, keyed, covered in *.
      split_and!.
      - apply NoDup_arrayFromSet.
      - rewrite Forall_forall. intros k Hk2. apply Hin in Hk2.
        simpl. unfold entities1. rewrite lookup_insert_is_Some.
        destruct (decide (newId = k)) as [?|Hne]; [by left|]. right.
        split; [done|]. destruct Hk2 as [->|[Hks Hkid]]; [done|].
        rewrite lookup_delete_ne by done.
        rewrite Forall_forall in Hl. by apply Hl.
      - simpl. unfold entities1. apply map_Forall_insert_2; [done|].
        by apply map_Forall_delete.
      - simpl entities. unfold entities1. intros k p.
        rewrite lookup_insert_Some, Hin.
        intros [[<- _]|[Hne Hp]]; [by left|]. right.
        apply lookup_delete_Some in Hp as [Hkid Hp].
        split; [by apply (Hc k p)|done]. }
    destruct (mergeFunction_spec s1 [] true true) as [Hent Hids].
    eapply wellFormed_perm; [| |exact Hwf2]; [|done].
    rewrite Hids, app_nil_r.
    destruct Hwf2 as (_ & Hl2 & Hk2 & _).
    change (Product.id <$> omap (λ i, entities s2 !! i) (ids s2) ≡ₚ ids s2).
    by rewrite ids_of_listed.
Qed.

(** The ids of the generated products are pairwise distinct: a decimal
    numeral of a positive number does not start with the pad character. *)
Lemma dropZeros_repeatChar n s :
  dropZeros (repeatChar n "0" +:+ s) = dropZeros s.
Proof. induction n as [|n IH]; simpl; [done|]. exact IH. Qed.

Lemma pretty_N_go_head (x : N) (s : string) :
  (0 < x)%N →
  ∃ c s', pretty_N_go x s = String c s' ∧ c ≠ "0"%char.
Proof.
  revert s. induction (N.lt_wf_0 x) as [x _ IH]; intros s Hx.
  rewrite pretty_N_go_step by done.
  destruct (decide (x < 10)%N) as [Hlt|Hge].
  - rewrite N.div_small by done. rewrite pretty_N_go_0.
    rewrite N.mod_small by done. eexists _, _. split; [done|].
    intros Hc. apply (pretty_N_char_inj x 0) in Hc; lia.
  - apply IH.
    + apply N.div_lt; lia.
    + apply N.div_str_pos; lia.
Qed.

Lemma dropZeros_pretty_S (n : nat) :
  dropZeros (pretty (S n)) = pretty (S n).
Proof.
  unfold pretty, pretty_nat, pretty, pretty_N.
  rewrite decide_False by lia.
  destruct (pretty_N_go_head (N.of_nat (S n)) "") as (c & s' & -> & Hc);
    [lia|].
  simpl. by rewrite decide_False.
Qed.

Lemma padStart_pretty_inj (k i j : nat) :
  padStart k "0" (pretty (S i)) = padStart k "0" (pretty (S j)) → i = j.
Proof.
  unfold padStart. intros Heq. apply (f_equal dropZeros) in Heq.
  rewrite !dropZeros_repeatChar, !dropZeros_pretty_S in Heq.
  apply (inj pretty) in Heq. by injection Heq.
Qed.

Lemma generateMockProducts_ids_NoDup count draw :
  NoDup (Product.id <$> generateMockProducts count draw).
Proof.
  unfold generateMockProducts. rewrite <- list_fmap_compose.
  apply NoDup_fmap_2_strong; [|apply NoDup_seq].
  intros i j _ _ Heq. simpl in Heq.
  apply (padStart_pretty_inj 5). by simplify_eq.
Qed.

(** Every history leads to a well-formed store: [ids] lists the keys of
    [entities], each once, and every entity is stored under its id. *)
Lemma handle_wellFormed w now e w' :
  wellFormed (store w) → handle w now e = Some w' → wellFormed (store w').
Proof.
  destruct w as [s n]. simpl. intros Hwf Hh.
  destruct e; simpl in Hh.
  - injection Hh as <-. revert Hwf. by apply wellFormed_perm.
  - destruct n as [|n]; [done|]. injection Hh as <-. simpl.
    unfold fetchInventory. destruct (Qlt_le_dec _ _); simpl.
    + revert Hwf. by apply wellFormed_perm.
    + apply setAll_wellFormed, generateMockProducts_ids_NoDup.
  - injection Hh as <-. by apply add_wellFormed.
  - injection Hh as <-. by apply updateOne_wellFormed.
  - injection Hh as <-. by apply removeOne_wellFormed.
  - injection Hh as <-. by apply updateStock_wellFormed.
  - injection Hh as <-. revert Hwf. by apply wellFormed_perm.
  - injection Hh as <-. revert Hwf. by apply wellFormed_perm.
  - injection Hh as <-. revert Hwf. by apply wellFormed_perm.
Qed.

Lemma reachable_wellFormed s : reachable s → wellFormed s.
Proof.
  intros (trace & w & Hw & <-). revert Hw.
  apply (handleAll_invariant (λ w, wellFormed (store w))).
  - intros ????. apply handle_wellFormed.
  - unfold wellFormed, listed, keyed, covered. simpl.
    split_and!; [constructor|constructor|apply map_Forall_empty..].
Qed.

(** X1. On every reachable state the listed ids are exactly the keys of
    [entities], and the number of entities [selectAllProducts] returns is
    the number of keys. *)
Lemma reachable_bijective s :
  reachable s →
  (∀ k, k ∈ ids s ↔ is_Some (entities s !! k))
  ∧ length (selectAllProducts s) = size (entities s).
Proof.
  intros (Hnd & Hl & Hk & Hc)%reachable_wellFormed.
  assert (∀ k, k ∈ ids s ↔ is_Some (entities s !! k)) as Hiff.
  { intros k. split.
    - unfold listed in Hl. rewrite Forall_forall in Hl. apply Hl.
    - intros [p Hp]. by apply (Hc k p). }
  split; [done|].
  rewrite length_selectAll_listed by done.
  rewrite <- size_dom, <- (size_list_to_set (C:=gset string) (ids s)) by done.
  f_equal. apply set_eq. intros k.
  by rewrite elem_of_list_to_set, elem_of_dom.
Qed.

(** ** The status rule along the histories *)

Lemma stockStatus_specStatus (quantity minStock : Z) :
  (0 ≤ quantity)%Z →
  stockStatus quantity minStock = specStatus quantity minStock.
Proof.
  intros Hq. unfold stockStatus, specStatus.
  repeat case_decide; try done; lia.
Qed.

(** Below zero the two rules part: the code says low stock where the worded
    rule says in stock. *)
Example stockStatus_negative_quantity :
  stockStatus (-1) 10 = LowStock ∧ specStatus (-1) 10 = InStock.
Proof. done. Qed.

Lemma entities_addMany s items existing :
  entities (addMany s items existing)
  = foldl (λ m item, <[Product.id item := item]> m) (entities s)
      (List.filter (λ model, bool_decide (Product.id model ∉ existing))
         items).
Proof. unfold addMany. by destruct (List.filter _ _). Qed.

Lemma addMany_entities_Forall (R : Product.t → Prop) s items existing :
  map_Forall (λ _, R) (entities s) → Forall R items →
  map_Forall (λ _, R) (entities (addMany s items existing)).
Proof.
  intros Hs Hitems. rewrite entities_addMany.
  apply entities_foldl_insert_Forall; [done|].
  rewrite Forall_forall in Hitems |- *. intros p.
  rewrite list_elem_of_In, filter_In, <- list_elem_of_In.
  intros [Hp _]. by apply Hitems.
Qed.

Lemma handle_entities_Forall (R : Product.t → Prop) w now e w' :
  respects R now e →
  map_Forall (λ _, R) (entities (store w)) →
  handle w now e = Some w' →
  map_Forall (λ _, R) (entities (store w')).
Proof.
  destruct w as [s n]. simpl. intros He HR Hh.
  destruct e; simpl in Hh, He; try done.
  - by injection Hh as <-.
  - destruct n as [|n]; [done|]. injection Hh as <-. simpl.
    unfold fetchInventory. destruct (Qlt_le_dec _ _); simpl; [done|].
    apply addMany_entities_Forall; [apply map_Forall_empty|].
    unfold generateMockProducts. rewrite Forall_fmap.
    apply Forall_forall. intros index _. apply He.
  - injection Hh as <-. simpl.
    apply addMany_entities_Forall; [done|].
    constructor; [by apply He|constructor].
  - injection Hh as <-. simpl. unfold removeOne.
    case_decide; [|done]. by apply map_Forall_delete.
  - injection Hh as <-. simpl. unfold updateStock.
    destruct (entities s !! id) as [p|] eqn:Hp; [|done]. simpl.
    apply map_Forall_insert_2; [|done]. apply He. by apply (HR id p).
  - by injection Hh as <-.
  - by injection Hh as <-.
  - by injection Hh as <-.
Qed.

Lemma handleAll_entities_Forall (R : Product.t → Prop) trace w :
  Forall (λ ne, respects R ne.1 ne.2) trace →
  handleAll initialWorld trace = Some w →
  map_Forall (λ _, R) (entities (store w)).
Proof.
  intros Htrace.
  assert (map_Forall (λ _, R) (entities (store initialWorld))) as H0
    by apply map_Forall_empty.
  revert H0. generalize initialWorld.
  induction Htrace as [|[now e] trace He _ IH]; intros w0 H0; simpl.
  - by intros [= <-].
  - destruct (handle w0 now e) as [w1|] eqn:Hw1; [|done].
    apply IH. by eapply handle_entities_Forall.
Qed.

(** Without [updateProduct], every stored status is the one the code
    computes from the stored quantity and [minStock]. *)
Lemma update_free_stockStatus trace w :
  Forall (λ ne, isUpdate ne.2 = false) trace →
  handleAll initialWorld trace = Some w →
  map_Forall
    (λ _ p, Product.status p
            = stockStatus (Product.quantity p) (Product.minStock p))
    (entities (store w)).
Proof.
  intros Htrace. apply handleAll_entities_Forall.
  eapply Forall_impl; [exact Htrace|].
  intros [now e] He. simpl in *.
  destruct e; simpl; try done.
  intros p [= <-]. done.
Qed.

(** X3. Along a history without [updateProduct] and with quantities that
    are not negative, every stored status follows the worded rule. *)
Lemma update_free_statusConsistent trace w :
  Forall (λ ne, isUpdate ne.2 = false ∧ nonNegative ne.2) trace →
  handleAll initialWorld trace = Some w →
  statusConsistent (store w).
Proof.
  intros Htrace Hw. unfold statusConsistent.
  cut (map_Forall
         (λ _ p, Product.status p
                 = stockStatus (Product.quantity p) (Product.minStock p)
                 ∧ (0 ≤ Product.quantity p)%Z)
         (entities (store w))).
  { intros Hall k p Hp. destruct (Hall k p Hp) as [-> Hq].
    by apply stockStatus_specStatus. }
  revert Hw. apply handleAll_entities_Forall.
  eapply Forall_impl; [exact Htrace|].
  intros [now e] [He Hq].
  destruct e; try done; cbn [respects nonNegative fst snd] in *.
  - intros index. split; [reflexivity|].
    apply (Qfloor_resp_le 0 (rQuantity (draws env index) * 100)).
    apply Qmult_le_0_compat; [apply Hq|done].
  - intros p [= <-]. done.
Qed.

(** ** Loading *)

Lemma lookup_foldl_insert_notin (l : list Product.t)
    (m : gmap string Product.t) (k : string) :
  k ∉ Product.id <$> l →
  foldl (λ m item, <[Product.id item := item]> m) m l !! k = m !! k.
Proof.
  revert m. induction l as [|q l IH]; intros m; csimpl; [done|].
  rewrite not_elem_of_cons. intros [Hne Hk].
  rewrite IH by done. by rewrite lookup_insert_ne.
Qed.

Lemma lookup_foldl_insert_NoDup (l : list Product.t)
    (m : gmap string Product.t) (p : Product.t) :
  NoDup (Product.id <$> l) → p ∈ l →
  foldl (λ m item, <[Product.id item := item]> m) m l !! Product.id p
  = Some p.
Proof.
  revert m. induction l as [|q l IH]; intros m; csimpl.
  - by intros _ ?%elem_of_nil.
  - rewrite NoDup_cons, elem_of_cons. intros [Hq Hnd] [->|Hp].
    + rewrite lookup_foldl_insert_notin by done. apply lookup_insert_eq.
    + by apply IH.
Qed.

Lemma omap_lookup_fmap_id (m : gmap string Product.t) (l : list Product.t) :
  (∀ q, q ∈ l → m !! Product.id q = Some q) →
  omap (λ i, m !! i) (Product.id <$> l) = l.
Proof.
  induction l as [|q l IH]; intros Hl; csimpl; [done|].
  rewrite Hl by left. csimpl. f_equal. apply IH.
  intros q' Hq'. apply Hl. by right.
Qed.

(** After [setAll] with entities of pairwise distinct ids, the store lists
    exactly these entities, sorted. *)
Lemma selectAll_setAll s payload :
  NoDup (Product.id <$> payload) →
  selectAllProducts (setAll s payload) = stableSort sortComparer payload
  ∧ entities (setAll s payload)
    = foldl (λ m item, <[Product.id item := item]> m) ∅ payload.
Proof.
  intros Hnd. unfold setAll, addMany.
  rewrite filter_all_true
    by (intros p; apply bool_decide_eq_true_2, not_elem_of_nil).
  destruct payload as [|p payload]; [done|].
  split; [|done].
  unfold selectAllProducts, mergeFunction. cbn [ids entities set_adapter].
  change (omap _ []) with (@nil Product.t).
  cbn match. apply omap_lookup_fmap_id.
  intros q Hq. apply lookup_foldl_insert_NoDup; [done|].
  by rewrite stableSort_perm in Hq.
Qed.

(** X4. A load that succeeds replaces the whole collection: the store then
    holds exactly the generated products, each under its id, as many as were
    asked for (5000 by default), with request status [succeeded] and no
    request error; filter and sort settings stay. *)
Theorem load_success_replaces_entities (now : string) (s : State)
    (count : option Z) (env : FetchEnv) (payload : list Product.t) :
  fetchInventory count env = Fulfilled payload →
  let s' := load now s count env in
  status s' = Succeeded
  ∧ error s' = None
  ∧ selectAllProducts s' ≡ₚ payload
  ∧ total (selectInventoryStats s') = Z.to_nat (default 5000 count)
  ∧ (∀ k p, entities s' !! k = Some p ↔ p ∈ payload ∧ Product.id p = k)
  ∧ filter s' = filter s
  ∧ sortBy s' = sortBy s ∧ sortOrder s' = sortOrder s.
Proof.
  intros Hful. cbn zeta. unfold load. rewrite Hful.
  cbn [fetchSettled inventoryReducer].
  assert (payload = generateMockProducts (Z.to_nat (default 5000 count))
                      (draws env)) as Hpayload.
  { unfold fetchInventory in Hful. destruct (Qlt_le_dec _ _); congruence. }
  assert (NoDup (Product.id <$> payload)) as Hnd
    by (rewrite Hpayload; apply generateMockProducts_ids_NoDup).
  set (s0 := set_request (set_request s Loading None) Succeeded _).
  destruct (selectAll_setAll s0 payload Hnd) as [Hall Hent].
  destruct (addMany_request (set_adapter s0 [] ∅) payload []) as [Hst Her].
  split_and!.
  - exact Hst.
  - exact Her.
  - rewrite Hall. apply stableSort_perm.
  - unfold selectInventoryStats, inventoryStats. cbn [total].
    rewrite Hall, stableSort_perm, Hpayload.
    unfold generateMockProducts. by rewrite length_fmap, length_seq.
  - intros k p. rewrite Hent. split.
    + revert k p. apply entities_foldl_insert_Forall;
        [apply map_Forall_empty|].
      by apply Forall_forall.
    + intros [Hp <-]. by apply lookup_foldl_insert_NoDup.
  - unfold setAll, addMany. by destruct (List.filter _ _).
  - unfold setAll, addMany. by destruct (List.filter _ _).
  - unfold setAll, addMany. by destruct (List.filter _ _).
Qed.

(** ** The generator *)

Lemma Qfloor_unit_scaled (r : Q) (n : Z) :
  (0 < n)%Z → (0 <= r)%Q → (r < 1)%Q →
  (0 ≤ Qfloor (r * inject_Z n) < n)%Z.
Proof.
  intros Hn H0 H1. split.
  - apply (Qfloor_resp_le 0 (r * inject_Z n)).
    apply Qmult_le_0_compat; [done|].
    change 0%Q with (inject_Z 0). rewrite <- Zle_Qle. lia.
  - rewrite Zlt_Qlt. eapply Qle_lt_trans; [apply Qfloor_le|].
    rewrite <- (Qmult_1_l (inject_Z n)) at 2.
    apply Qmult_lt_compat_r; [|done].
    change 0%Q with (inject_Z 0). rewrite <- Zlt_Qlt. lia.
Qed.

(** X5. With draws in the unit interval the generator returns [count]
    products with pairwise distinct ids, each with [minStock] 10, a quantity
    from 0 to 99, a price from 10 to 1009, one of the six categories, and
    the status computed from its quantity. *)
Theorem generateMockProducts_shape (count : nat) (draw : nat → Draw) :
  (∀ index, unitDraw (draw index)) →
  length (generateMockProducts count draw) = count
  ∧ NoDup (Product.id <$> generateMockProducts count draw)
  ∧ Forall
      (λ p, Product.minStock p = 10
            ∧ (0 ≤ Product.quantity p < 100)%Z
            ∧ (10 ≤ Product.price p < 1010)%Z
            ∧ Product.category p ∈ categories
            ∧ Product.status p = stockStatus (Product.quantity p) 10)
      (generateMockProducts count draw).
Proof.
  intros Hdraw. split_and!.
  - unfold generateMockProducts. by rewrite length_fmap, length_seq.
  - apply generateMockProducts_ids_NoDup.
  - unfold generateMockProducts. rewrite Forall_fmap.
    apply Forall_forall. intros index _.
    destruct (Hdraw index) as (Hq0 & Hq1 & Hc0 & Hc1 & Hp0 & Hp1).
    unfold mockProduct. cbn [Product.minStock Product.quantity Product.price
                             Product.category Product.status compose].
    pose proof (Qfloor_unit_scaled (rQuantity (draw index)) 100
                  ltac:(done) Hq0 Hq1) as Hq.
    pose proof (Qfloor_unit_scaled (rPrice (draw index)) 1000
                  ltac:(done) Hp0 Hp1) as Hp.
    pose proof (Qfloor_unit_scaled (rCategory (draw index))
                  (Z.of_nat (length categories)) ltac:(done) Hc0 Hc1) as Hc.
    split; [done|]. split; [exact Hq|].
    split; [change (rPrice (draw index) * 1000)%Q
              with (rPrice (draw index) * inject_Z 1000)%Q; lia|].
    split; [|done].
    destruct (categories !! Z.to_nat (Qfloor (rCategory (draw index)
                * inject_Z (Z.of_nat (length categories))))) as [c|] eqn:Hlk.
    + simpl. by eapply list_elem_of_lookup_2.
    + apply lookup_ge_None in Hlk. lia.
Qed.

(** ** Filtering *)

Lemma prefix_spec (needle hay : string) :
  String.prefix needle hay = true ↔ ∃ rest, hay = needle +:+ rest.
Proof.
  revert hay. induction needle as [|c needle IH]; intros hay; simpl.
  - destruct hay; split; eauto.
  - destruct hay as [|c' hay]; simpl.
    + split; [done|]. by intros [rest ?].
    + destruct (ascii_dec c c') as [<-|Hne].
      * rewrite IH. split; intros [rest Hrest]; exists rest.
        -- by subst hay.
        -- change (String c hay = String c (needle +:+ rest)) in Hrest.
           congruence.
      * split; [done|]. intros [rest Hrest].
        change (String c' hay = String c (needle +:+ rest)) in Hrest.
        congruence.
Qed.

(** [includes] is the substring test. *)
Lemma includes_spec (hay needle : string) :
  includes hay needle = true
  ↔ ∃ before after, hay = before +:+ needle +:+ after.
Proof.
  induction hay as [|c hay IH].
  - change (includes "" needle) with (String.prefix needle "" || false).
    rewrite orb_false_r, prefix_spec. split.
    + intros [rest Hrest]. by exists "", rest.
    + intros (before & after & Heq).
      destruct before; [by exists after|done].
  - change (includes (String c hay) needle)
      with (String.prefix needle (String c hay) || includes hay needle).
    rewrite orb_true_iff, prefix_spec, IH. split.
    + intros [[rest Hrest]|(before & after & ->)].
      * by exists "", rest.
      * by exists (String c before), after.
    + intros (before & after & Heq).
      destruct before as [|c' before].
      * left. by exists after.
      * right. exists before, after.
        change (String c hay = String c' (before +:+ needle +:+ after))
          in Heq.
        congruence.
Qed.

Lemma filterProducts_matchesFilter products f :
  filterProducts products f = List.filter (matchesFilter f) products.
Proof. done. Qed.

Lemma filter_filter_andb {A} (f g : A → bool) (l : list A) :
  List.filter g (List.filter f l) = List.filter (λ x, f x && g x) l.
Proof.
  induction l as [|x l IH]; simpl; [done|].
  destruct (f x); simpl; [|done]. destruct (g x); by rewrite IH.
Qed.

Lemma filter_ext_bool {A} (f g : A → bool) (l : list A) :
  (∀ x, f x = g x) → List.filter f l = List.filter g l.
Proof.
  intros Hfg. induction l as [|x l IH]; simpl; [done|].
  by rewrite Hfg, IH.
Qed.

(** X6. The three predicates of the filter are combined by conjunction:
    filtering by category, status and search term at once is filtering by
    the category, then by the status, then by the search term, and the
    result keeps the order of the products. *)
Theorem filterProducts_one_by_one (products : list Product.t)
    (f : Filter.t) :
  filterProducts products f
  = filterProducts
      (filterProducts
         (filterProducts products (Filter.mk (Filter.category f) "all" ""))
         (Filter.mk "all" (Filter.status f) ""))
      (Filter.mk "all" "all" (Filter.searchTerm f))
  ∧ sublist (filterProducts products f) products.
Proof.
  split.
  - rewrite !filterProducts_matchesFilter, !filter_filter_andb.
    apply filter_ext_bool. intros p. unfold matchesFilter.
    cbn [Filter.category Filter.status Filter.searchTerm].
    rewrite !(bool_decide_eq_true_2 ("all" = "all")) by done.
    rewrite !(bool_decide_eq_true_2 ("" = "")) by done.
    cbn [orb andb]. by rewrite !andb_true_r, andb_assoc.
  - rewrite filterProducts_matchesFilter.
    induction products as [|p l IH]; simpl; [done|].
    destruct (matchesFilter f p); by constructor.
Qed.

Lemma statusTag_inj st st' : statusTag st = statusTag st' → st = st'.
Proof. by destruct st, st'. Qed.

Lemma statusTag_not_all st : statusTag st ≠ "all".
Proof. by destruct st. Qed.

(** X7. Filtering all products by one of the three status tags shows as
    many products as the statistics count in that bucket. *)
Theorem status_filter_matches_stats (s : State) :
  let shown st :=
    length (filterProducts (selectAllProducts s)
              (Filter.mk "all" (statusTag st) "")) in
  shown InStock = inStock (selectInventoryStats s)
  ∧ shown LowStock = lowStock (selectInventoryStats s)
  ∧ shown OutOfStock = outOfStock (selectInventoryStats s).
Proof.
  assert (∀ st l,
            filterProducts l (Filter.mk "all" (statusTag st) "")
            = List.filter (λ p, bool_decide (Product.status p = st)) l)
    as Hfilter.
  { intros st l. rewrite filterProducts_matchesFilter.
    apply filter_ext_bool. intros p. unfold matchesFilter.
    cbn [Filter.category Filter.status Filter.searchTerm].
    rewrite (bool_decide_eq_true_2 ("all" = "all")) by done.
    rewrite (bool_decide_eq_true_2 ("" = "")) by done.
    rewrite (bool_decide_eq_false_2 (statusTag st = "all"))
      by apply statusTag_not_all.
    cbn [orb andb]. rewrite andb_true_r.
    apply bool_decide_ext. split; [apply statusTag_inj|by intros ->]. }
  cbv beta zeta. by rewrite !Hfilter.
Qed.

(** X8. A status filter that is neither ["all"] nor one of the three tags
    shows nothing, whatever the store holds. *)
Theorem unknown_status_filter_shows_nothing (products : list Product.t)
    (f : Filter.t) :
  Filter.status f ≠ "all" →
  (∀ st, statusTag st ≠ Filter.status f) →
  filterProducts products f = [].
Proof.
  intros Hall Htag. rewrite filterProducts_matchesFilter.
  induction products as [|p l IH]; simpl; [done|].
  rewrite IH. unfold matchesFilter.
  rewrite (bool_decide_eq_false_2 (Filter.status f = "all")) by done.
  rewrite (bool_decide_eq_false_2 (statusTag _ = _)) by apply Htag.
  cbn [orb]. by rewrite andb_false_r.
Qed.

(** X9. With category and status at ["all"], a product is shown exactly
    when the search term is empty or its lower-cased form occurs inside the
    lower-cased name or the lower-cased sku of the product. *)
Theorem search_is_substring_match (products : list Product.t)
    (term : string) (p : Product.t) :
  p ∈ filterProducts products (Filter.mk "all" "all" term)
  ↔ p ∈ products
    ∧ (term = ""
       ∨ (∃ before after,
            toLowerCase (Product.name p)
            = before +:+ toLowerCase term +:+ after)
       ∨ (∃ before after,
            toLowerCase (Product.sku p)
            = before +:+ toLowerCase term +:+ after)).
Proof.
  rewrite filterProducts_matchesFilter, list_elem_of_In, filter_In.
  rewrite <- list_elem_of_In. unfold matchesFilter.
  cbn [Filter.category Filter.status Filter.searchTerm].
  rewrite !(bool_decide_eq_true_2 ("all" = "all")) by done.
  cbn [orb andb].
  rewrite !orb_true_iff, bool_decide_eq_true, !includes_spec.
  split; (intros [Hp H]; split; [done|]).
  - destruct H as [[?|?]|?]; auto.
  - destruct H as [?|[?|?]]; auto.
Qed.

Lemma setFilters_frame s settings :
  ∃ f, setFilters s settings = set_filter s f.
Proof.
  unfold setFilters. revert s.
  induction settings as [|[key value] settings IH]; intros s; simpl.
  - exists (filter s). by destruct s.
  - destruct (IH (setFilter s key value)) as [f ->]. by exists f.
Qed.

(** X10. [clearFilters] undoes any run of [setFilter]: the filter is the
    initial one again, the filtered view is the list of all products, and
    nothing else in the state has changed. *)
Theorem clearFilters_resets (s : State) (settings : list (FilterKey * string)) :
  clearFilters (setFilters s settings) = set_filter s initialFilter
  ∧ selectFilteredProducts (clearFilters (setFilters s settings))
    = selectAllProducts s.
Proof.
  destruct (setFilters_frame s settings) as [f ->].
  split; [done|].
  unfold selectFilteredProducts. rewrite filterProducts_matchesFilter.
  change (selectAllProducts (clearFilters (set_filter s f)))
    with (selectAllProducts s).
  by apply filter_all_true.
Qed.

(** ** Adding, removing and updating on well-formed states *)

Lemma insertSorted_split {A} (cmp : A → A → Z) (x : A) (l : list A) :
  ∃ l1 l2 : list A,
    l = (l1 ++ l2)%list ∧ insertSorted cmp x l = (l1 ++ x :: l2)%list.
Proof.
  induction l as [|y l (l1 & l2 & Hl & Hins)]; simpl.
  - by exists [], [].
  - case_decide.
    + by exists [], (y :: l).
    + exists (y :: l1), l2. by rewrite Hl at 1; rewrite Hins.
Qed.

Lemma filter_Forall_true {A} (f : A → bool) (l : list A) :
  Forall (λ x, f x = true) l → List.filter f l = l.
Proof.
  induction 1 as [|x l Hx _ IH]; simpl; [done|]. by rewrite Hx, IH.
Qed.

Lemma wellFormed_elem_of s k :
  wellFormed s → k ∈ ids s ↔ is_Some (entities s !! k).
Proof.
  intros (_ & Hl & _ & Hc). split.
  - unfold listed in Hl. rewrite Forall_forall in Hl. apply Hl.
  - intros [p Hp]. by apply (Hc k p).
Qed.

Lemma wellFormed_size s :
  wellFormed s → length (selectAllProducts s) = size (entities s).
Proof.
  intros Hwf. pose proof Hwf as (Hnd & Hl & _).
  rewrite length_selectAll_listed by done.
  rewrite <- size_dom, <- (size_list_to_set (C:=gset string) (ids s)) by done.
  f_equal. apply set_eq. intros k.
  by rewrite elem_of_list_to_set, elem_of_dom, wellFormed_elem_of.
Qed.

Lemma addOne_fresh_exact s p :
  Product.id p ∉ ids s →
  addOne s p
  = set_adapter s
      (Product.id
         <$> insertSorted sortComparer p (omap (λ i, entities s !! i) (ids s)))
      (<[Product.id p := p]> (entities s)).
Proof.
  intros Hn. unfold addOne, addMany. simpl List.filter.
  rewrite bool_decide_eq_true_2 by done.
  unfold mergeFunction. cbn [foldl].
  by destruct (omap _ (ids s)).
Qed.

(** X11. On a well-formed state, removing the product an [add] has just
    inserted under a fresh id gives back the state as it was before the
    add: entities, order of ids and everything else. *)
Theorem add_then_remove_restores (now now' : string) (s : State)
    (d : ProductData.t) (dateNow : Z) :
  wellFormed s → ("PROD-" +:+ pretty dateNow) ∉ ids s →
  remove now' (add now s d dateNow) ("PROD-" +:+ pretty dateNow) = s.
Proof.
  intros Hwf Hn.
  destruct (add_addOne now s d dateNow) as (p & _ & Hid & ->).
  rewrite <- Hid in *. clear Hid.
  assert (entities s !! Product.id p = None) as Hnone.
  { destruct (entities s !! Product.id p) eqn:Hp; [|done].
    destruct Hn. apply wellFormed_elem_of; [done|]. by eexists. }
  unfold remove. cbn [deleteProduct deleteSettled inventoryReducer].
  rewrite addOne_fresh_exact by done.
  rewrite removeOne_present
    by (cbn [entities set_adapter]; rewrite lookup_insert_eq; by eexists).
  cbn [entities ids set_adapter].
  rewrite delete_insert_eq, delete_id by done.
  destruct Hwf as (_ & Hl & Hk & _).
  destruct (insertSorted_split sortComparer p
              (omap (λ i, entities s !! i) (ids s)))
    as (l1 & l2 & Hsplit & ->).
  rewrite fmap_app, fmap_cons, List.filter_app. cbn [List.filter].
  rewrite Hnone, bool_decide_eq_false_2 by (by intros [? ?]).
  rewrite <- List.filter_app, <- fmap_app, <- Hsplit, ids_of_listed by done.
  rewrite filter_Forall_true.
  - by destruct s.
  - eapply Forall_impl; [exact Hl|]. intros k Hs.
    by apply bool_decide_eq_true_2.
Qed.

Lemma omap_lookup_insert_notin (m : gmap string Product.t)
    (l : list string) (id : string) (p' : Product.t) :
  id ∉ l → omap (λ i, <[id:=p']> m !! i) l = omap (λ i, m !! i) l.
Proof.
  induction l as [|k l IH]; csimpl; [done|].
  rewrite not_elem_of_cons. intros [Hne Hl].
  rewrite lookup_insert_ne, IH by done. done.
Qed.

Lemma omap_lookup_insert_split (m : gmap string Product.t)
    (l : list string) (id : string) (p p' : Product.t) :
  NoDup l → id ∈ l → m !! id = Some p →
  ∃ l1 l2 : list Product.t,
    omap (λ i, m !! i) l = (l1 ++ p :: l2)%list
    ∧ omap (λ i, <[id:=p']> m !! i) l = (l1 ++ p' :: l2)%list.
Proof.
  intros Hnd Hin Hp. induction Hnd as [|k l Hk Hnd IH]; csimpl.
  - by apply elem_of_nil in Hin.
  - destruct (decide (k = id)) as [->|Hne].
    + rewrite Hp, lookup_insert_eq, omap_lookup_insert_notin by done.
      by exists [], (omap (λ i, m !! i) l).
    + apply elem_of_cons in Hin as [->|Hin]; [done|].
      destruct (IH Hin) as (l1 & l2 & -> & ->).
      rewrite lookup_insert_ne by done.
      destruct (m !! k) as [q|]; csimpl.
      * by exists (q :: l1), l2.
      * by exists l1, l2.
Qed.

Lemma countStatus_app b (l1 l2 : list Product.t) :
  countStatus b (l1 ++ l2)%list = (countStatus b l1 + countStatus b l2)%nat.
Proof. induction l1 as [|p l1 IH]; simpl; [done|]. rewrite IH. lia. Qed.

(** X12. On a well-formed state, [updateStock] on a present product keeps
    the total and moves one product from the bucket of its old status to
    the bucket of the recomputed status; setting to 0 the quantity of a
    product that is not out of stock raises [outOfStock] by exactly one. *)
Theorem updateStock_moves_one_bucket (now : string) (s : State)
    (id : string) (quantity : Z) (p : Product.t) :
  wellFormed s → entities s !! id = Some p →
  let s' := updateStock now s id quantity in
  let stats := selectInventoryStats s in
  let stats' := selectInventoryStats s' in
  let st' := stockStatus quantity (Product.minStock p) in
  total stats' = total stats
  ∧ (∀ b, (countStatus b (selectAllProducts s')
           + (if decide (Product.status p = b) then 1 else 0)
           = countStatus b (selectAllProducts s)
             + (if decide (st' = b) then 1 else 0))%nat)
  ∧ (quantity = 0 → Product.status p ≠ OutOfStock →
     outOfStock stats' = S (outOfStock stats)).
Proof.
  intros Hwf Hp. cbv zeta.
  pose proof Hwf as (Hnd & _).
  assert (id ∈ ids s) as Hin
    by (apply wellFormed_elem_of; [done|by eexists]).
  unfold updateStock. rewrite Hp.
  set (p' := Product.mk _ _ _ _ _ _ _ _ _).
  destruct (omap_lookup_insert_split (entities s) (ids s) id p p'
              Hnd Hin Hp) as (l1 & l2 & Hall & Hall').
  unfold selectInventoryStats, inventoryStats, selectAllProducts.
  cbn [total outOfStock ids entities set_adapter].
  rewrite Hall, Hall', !length_filter_status.
  assert (∀ b, (countStatus b (l1 ++ p' :: l2)%list
                + (if decide (Product.status p = b) then 1 else 0)
                = countStatus b (l1 ++ p :: l2)%list
                  + (if decide (stockStatus quantity (Product.minStock p) = b)
                     then 1 else 0))%nat) as Hcount.
  { intros b. rewrite !countStatus_app. simpl. lia. }
  split_and!.
  - rewrite !length_app. simpl. lia.
  - exact Hcount.
  - intros -> Hst. specialize (Hcount OutOfStock).
    rewrite decide_False in Hcount by done.
    rewrite decide_True in Hcount by done. lia.
Qed.

Lemma update_updateOne now s id changes :
  update now s id changes = updateOne s id (withLastUpdated changes now).
Proof. done. Qed.

(** X13. On a well-formed state, [update] (the [updateProduct] thunk and
    its reducer case) leaves the state as it is when the id is absent. When
    the id is present and the changes keep it, the entity becomes the old
    one overwritten by the changes with a fresh [lastUpdated]; its status
    is the one handed in, or the old one, never a recomputed one; the
    other entities, the set of ids and the rest of the state stay. *)
Theorem update_merges_changes (now : string) (s : State) (id : string)
    (changes : Changes.t) :
  wellFormed s →
  (entities s !! id = None → update now s id changes = s)
  ∧ (∀ p, entities s !! id = Some p →
       default id (Changes.id changes) = id →
       let p' := assign p (withLastUpdated changes now) in
       let s' := update now s id changes in
       entities s' = <[id := p']> (entities s)
       ∧ ids s' ≡ₚ ids s
       ∧ wellFormed s'
       ∧ Product.lastUpdated p' = now
       ∧ Product.status p'
         = default (Product.status p) (Changes.status changes)
       ∧ status s' = status s ∧ error s' = error s
       ∧ filter s' = filter s).
Proof.
  intros Hwf. rewrite update_updateOne. split.
  - intros Hnone. unfold updateOne. by rewrite Hnone.
  - intros p Hp Hsame. cbv zeta.
    pose proof (updateOne_wellFormed s id (withLastUpdated changes now) Hwf)
      as Hwf'.
    assert (Product.id p = id) as Hpid
      by (destruct Hwf as (_ & _ & Hk & _); by apply (Hk id p)).
    assert (entities (updateOne s id (withLastUpdated changes now))
            = <[id := assign p (withLastUpdated changes now)]> (entities s)
            ∧ status (updateOne s id (withLastUpdated changes now)) = status s
            ∧ error (updateOne s id (withLastUpdated changes now)) = error s
            ∧ filter (updateOne s id (withLastUpdated changes now)) = filter s)
      as (Hent & Hst & Her & Hfl).
    { unfold updateOne. rewrite Hp.
      rewrite decide_True; [done|].
      unfold assign. cbn [Product.id withLastUpdated Changes.id].
      by rewrite Hpid. }
    split_and!; try done.
    apply NoDup_Permutation; [by destruct Hwf'|by destruct Hwf|].
    intros k. rewrite !wellFormed_elem_of by done.
    rewrite Hent, lookup_insert_is_Some.
    split.
    + intros [<-|[_ ?]]; [by eexists|done].
    + intros Hk. destruct (decide (id = k)); [by left|by right].
Qed.

(** X14. On a well-formed state, an [update] whose changes carry a new id
    moves the entity: the old id is gone, the new id holds the changed
    entity, and an entity that was stored under the new id before is
    overwritten, so the store then lists one entity less. *)
Theorem update_rename_moves_entity (now : string) (s : State)
    (id newId : string) (changes : Changes.t) (p : Product.t) :
  wellFormed s → entities s !! id = Some p →
  Changes.id changes = Some newId → newId ≠ id →
  let p' := assign p (withLastUpdated changes now) in
  let s' := update now s id changes in
  entities s' = <[newId := p']> (delete id (entities s))
  ∧ Product.id p' = newId
  ∧ selectProductById s' id = None
  ∧ selectProductById s' newId = Some p'
  ∧ wellFormed s'
  ∧ length (selectAllProducts s')
    = (if decide (is_Some (entities s !! newId))
       then pred (length (selectAllProducts s))
       else length (selectAllProducts s)).
Proof.
  intros Hwf Hp Hid Hne. cbv zeta. rewrite update_updateOne.
  pose proof (updateOne_wellFormed s id (withLastUpdated changes now) Hwf)
    as Hwf'.
  assert (Product.id (assign p (withLastUpdated changes now)) = newId)
    as Hnew by (unfold assign; cbn; by rewrite Hid).
  assert (entities (updateOne s id (withLastUpdated changes now))
          = <[newId := assign p (withLastUpdated changes now)]>
              (delete id (entities s))) as Hent.
  { unfold updateOne. rewrite Hp. cbv zeta. rewrite Hnew.
    by rewrite decide_False by done. }
  unfold selectProductById.
  rewrite !wellFormed_size, Hent by done.
  split_and!; try done.
  - rewrite lookup_insert_ne by done. apply lookup_delete_eq.
  - apply lookup_insert_eq.
  - rewrite map_size_insert, lookup_delete_ne by done.
    rewrite map_size_delete_Some by (by eexists).
    assert (0 < size (entities s))%nat as Hpos.
    { destruct (decide (size (entities s) = 0%nat)) as [H0|]; [|lia].
      apply map_size_empty_inv in H0. rewrite H0 in Hp. done. }
    case_decide as Hsome.
    + destruct Hsome as [q ->]. done.
    + destruct (entities s !! newId) eqn:Hq; [by destruct Hsome|].
      simpl. lia.
Qed.

(** ** The order of the ids *)

Lemma insertSorted_sorted {A} (cmp : A → A → Z) (x : A) (l : list A) :
  strictOrder cmp → sortedBy cmp l → sortedBy cmp (insertSorted cmp x l).
Proof.
  intros [Hasym Htrans]. unfold sortedBy.
  induction l as [|y l IH]; simpl; intros Hl.
  - repeat constructor.
  - apply StronglySorted_inv in Hl as [Hl Hy]. case_decide as Hxy.
    + constructor; [by constructor|]. constructor; [by apply Hasym|].
      eapply Forall_impl; [exact Hy|]. intros z Hz Hzx. simpl in Hz.
      apply Hz. by eapply Htrans.
    + constructor; [by apply IH|].
      rewrite (Forall_forall (λ b, ¬ cmp b y < 0)).
      intros z. rewrite insertSorted_perm, elem_of_cons.
      intros [->|Hz]; [done|].
      rewrite Forall_forall in Hy. by apply Hy.
Qed.

Lemma foldl_insertSorted_sorted {A} (cmp : A → A → Z) (l acc : list A) :
  strictOrder cmp → sortedBy cmp acc →
  sortedBy cmp (foldl (λ acc x, insertSorted cmp x acc) acc l).
Proof.
  intros Hcmp. revert acc. induction l as [|x l IH]; intros acc Hacc; simpl.
  - done.
  - by apply IH, insertSorted_sorted.
Qed.

Lemma stableSort_sorted {A} (cmp : A → A → Z) (l : list A) :
  strictOrder cmp → sortedBy cmp (stableSort cmp l).
Proof.
  intros Hcmp. apply foldl_insertSorted_sorted; [done|]. constructor.
Qed.

Lemma sortedBy_sublist {A} (cmp : A → A → Z) (k l : list A) :
  sublist k l → sortedBy cmp l → sortedBy cmp k.
Proof.
  unfold sortedBy. induction 1 as [|x k l Hkl IH|x k l Hkl IH].
  - done.
  - intros [Hl Hx]%StronglySorted_inv. constructor; [by apply IH|].
    rewrite Forall_forall in Hx |- *. intros z Hz. apply Hx.
    by eapply elem_of_sublist.
  - intros [Hl _]%StronglySorted_inv. by apply IH.
Qed.

Lemma fmap_name_insertSorted (p : Product.t) (l : list Product.t) :
  Product.name <$> insertSorted sortComparer p l
  = insertSorted localeCompare (Product.name p) (Product.name <$> l).
Proof.
  induction l as [|q l IH]; [done|].
  cbn [insertSorted]. rewrite !fmap_cons. cbn [insertSorted].
  change (sortComparer p q)
    with (localeCompare (Product.name p) (Product.name q)).
  case_decide; [done|]. by rewrite fmap_cons, IH.
Qed.

Lemma fmap_name_foldl_insertSorted (l acc : list Product.t) :
  Product.name <$> foldl (λ acc x, insertSorted sortComparer x acc) acc l
  = foldl (λ acc x, insertSorted localeCompare x acc)
      (Product.name <$> acc) (Product.name <$> l).
Proof.
  revert acc. induction l as [|p l IH]; intros acc; csimpl; [done|].
  by rewrite IH, fmap_name_insertSorted.
Qed.

Lemma insertSorted_nameSorted (p : Product.t) (l : list Product.t) :
  strictOrder localeCompare → nameSorted l →
  nameSorted (insertSorted sortComparer p l).
Proof.
  intros Hcmp Hl. unfold nameSorted. rewrite fmap_name_insertSorted.
  by apply insertSorted_sorted.
Qed.

Lemma stableSort_nameSorted (l : list Product.t) :
  strictOrder localeCompare → nameSorted (stableSort sortComparer l).
Proof.
  intros Hcmp. unfold nameSorted, stableSort.
  rewrite fmap_name_foldl_insertSorted. by apply stableSort_sorted.
Qed.

Lemma selectAll_addOne_fresh s p :
  wellFormed s → Product.id p ∉ ids s →
  selectAllProducts (addOne s p)
  = insertSorted sortComparer p (selectAllProducts s).
Proof.
  intros (_ & Hl & Hk & _) Hn. rewrite addOne_fresh_exact by done.
  unfold selectAllProducts. cbn [ids entities set_adapter].
  apply omap_lookup_fmap_id. intros q.
  rewrite insertSorted_perm, elem_of_cons, list_elem_of_omap.
  intros [->|(k & Hin & Hq)]; [apply lookup_insert_eq|].
  assert (Product.id q = k) as -> by by apply (Hk k q).
  rewrite lookup_insert_ne; [done|]. intros Heq. by rewrite Heq in Hn.
Qed.

Lemma selectAll_mergeFunction_nil s r :
  keyed s →
  selectAllProducts (mergeFunction s [] true r)
  = stableSort sortComparer
      (omap (λ i, entities s !! i)
         (if r then arrayFromSet [] (ids s) else ids s)).
Proof.
  intros Hk. unfold selectAllProducts, mergeFunction.
  cbn [ids entities set_adapter foldl].
  set (listed := omap _ (if r then _ else _)).
  assert ((match listed with
           | [] => stableSort sortComparer []
           | _ :: _ => stableSort sortComparer listed
           end) = stableSort sortComparer listed) as -> by by destruct listed.
  apply omap_lookup_fmap_id. intros q.
  rewrite stableSort_perm. unfold listed. rewrite list_elem_of_omap.
  intros (k & _ & Hq). assert (Product.id q = k) as -> by by apply (Hk k q).
  done.
Qed.

Lemma updateOne_nameSorted s id changes :
  strictOrder localeCompare → wellFormed s →
  nameSorted (selectAllProducts s) →
  nameSorted (selectAllProducts (updateOne s id changes)).
Proof.
  intros Hcmp (_ & _ & Hk & _) Hsorted. unfold updateOne.
  destruct (entities s !! id) as [entity|] eqn:Hentity; [|done].
  case_decide as Hnew.
  - rewrite selectAll_mergeFunction_nil; [by apply stableSort_nameSorted|].
    unfold keyed. cbn [entities set_adapter].
    by apply map_Forall_insert_2.
  - rewrite selectAll_mergeFunction_nil; [by apply stableSort_nameSorted|].
    unfold keyed. cbn [entities set_adapter].
    apply map_Forall_insert_2; [done|]. by apply map_Forall_delete.
Qed.

Lemma selectAll_removeOne_sublist s key :
  sublist (selectAllProducts (removeOne s key)) (selectAllProducts s).
Proof.
  unfold removeOne. case_decide; [|done].
  unfold selectAllProducts. cbn [ids entities set_adapter].
  induction (ids s) as [|k l IH]; csimpl; [done|].
  case_bool_decide as Hk.
  - destruct Hk as [q Hq]. csimpl. rewrite Hq. csimpl.
    apply lookup_delete_Some in Hq as [_ ->]. csimpl. by constructor.
  - destruct (entities s !! k); csimpl; [by constructor|done].
Qed.

Lemma selectAll_updateStock_names now s id quantity :
  wellFormed s →
  Product.name <$> selectAllProducts (updateStock now s id quantity)
  = Product.name <$> selectAllProducts s.
Proof.
  intros Hwf. unfold updateStock.
  destruct (entities s !! id) as [p|] eqn:Hp; [|done].
  set (p' := Product.mk _ _ _ _ _ _ _ _ _).
  pose proof Hwf as (Hnd & _).
  assert (id ∈ ids s) as Hin
    by (apply wellFormed_elem_of; [done|by eexists]).
  destruct (omap_lookup_insert_split (entities s) (ids s) id p p'
              Hnd Hin Hp) as (l1 & l2 & Hall & Hall').
  unfold selectAllProducts. cbn [ids entities set_adapter].
  rewrite Hall, Hall'. by rewrite !fmap_app, !fmap_cons.
Qed.

Lemma handle_nameSorted w now e w' :
  strictOrder localeCompare →
  wellFormed (store w) → nameSorted (selectAllProducts (store w)) →
  handle w now e = Some w' →
  nameSorted (selectAllProducts (store w')).
Proof.
  destruct w as [s n]. cbn [store]. intros Hcmp Hwf Hsorted Hh.
  destruct e as [|count env|productData t|id changes|id|id quantity
                |key value| |k o]; simpl in Hh.
  - by injection Hh as <-.
  - destruct n as [|n]; [done|]. injection Hh as <-. cbn [store].
    unfold fetchInventory. destruct (Qlt_le_dec _ _); [done|].
    cbn [fetchSettled inventoryReducer].
    destruct (selectAll_setAll (set_request s Succeeded (error s))
                (generateMockProducts (Z.to_nat (default 5000 count))
                   (draws env))
                (generateMockProducts_ids_NoDup _ _)) as [-> _].
    by apply stableSort_nameSorted.
  - injection Hh as <-.
    change (nameSorted (selectAllProducts (add now s productData t))).
    destruct (add_addOne now s productData t) as (p & _ & _ & ->).
    destruct (decide (Product.id p ∈ ids s)) as [Hin|Hn].
    + by rewrite addOne_present.
    + rewrite selectAll_addOne_fresh by done.
      by apply insertSorted_nameSorted.
  - injection Hh as <-. by apply updateOne_nameSorted.
  - injection Hh as <-. cbn [store]. unfold nameSorted.
    eapply sortedBy_sublist; [|exact Hsorted].
    apply fmap_sublist, selectAll_removeOne_sublist.
  - injection Hh as <-. cbn [store]. unfold nameSorted.
    cbn [inventoryReducer]. by rewrite selectAll_updateStock_names.
  - by injection Hh as <-.
  - by injection Hh as <-.
  - by injection Hh as <-.
Qed.

Lemma reachable_nameSorted (s : State) :
  strictOrder localeCompare → reachable s →
  nameSorted (selectAllProducts s).
Proof.
  intros Hcmp (trace & w & Hw & <-).
  cut (wellFormed (store w) ∧ nameSorted (selectAllProducts (store w))).
  { by intros [_ ?]. }
  revert Hw.
  apply (handleAll_invariant
           (λ w, wellFormed (store w)
                 ∧ nameSorted (selectAllProducts (store w)))).
  - intros w0 now e w1 [Hwf Hsorted] Hh. split.
    + by eapply handle_wellFormed.
    + by eapply handle_nameSorted.
  - split.
    + unfold wellFormed, listed, keyed, covered. simpl.
      split_and!; [constructor|constructor|apply map_Forall_empty..].
    + constructor.
Qed.

(** X15. When [localeCompare] orders strings (comparing strictly below is
    asymmetric and transitive), every reachable store lists its products
    sorted by name: whatever has been loaded, added, updated or removed, no
    product of [selectAllProducts] is followed by one whose name compares
    strictly below its own. *)
Theorem reachable_sorted_by_name (s : State) :
  strictOrder localeCompare → reachable s →
  nameSorted (selectAllProducts s).
Proof. apply reachable_nameSorted. Qed.

(** ** The inventory page *)

Lemma filter_unless {A} (P : Prop) `{Decision P} (g : A → bool)
    (l : list A) :
  (if decide P then l else List.filter g l)
  = List.filter (λ x, bool_decide P || g x) l.
Proof.
  case_decide.
  - symmetry. apply filter_all_true. intros x.
    by rewrite bool_decide_eq_true_2.
  - apply filter_ext_bool. intros x. by rewrite bool_decide_eq_false_2.
Qed.

Lemma pageFilteredProducts_unsorted products localSearchTerm f field order :
  pageFilteredProducts products localSearchTerm f field order
  = stableSort (pageCompare field order)
      (filterProducts products
         (Filter.mk (Filter.category f) (Filter.status f) localSearchTerm)).
Proof.
  unfold pageFilteredProducts. cbv zeta. f_equal.
  rewrite !filter_unless, !filter_filter_andb, filterProducts_matchesFilter.
  apply filter_ext_bool. intros p. unfold matchesFilter.
  cbn [Filter.category Filter.status Filter.searchTerm].
  rewrite orb_assoc.
  by destruct (_ || _ || _), (_ || _), (_ || _).
Qed.

(** X16. The page filters as the selector does: its list is a rearrangement
    of what [selectFilteredProducts] yields for the store's category and
    status filter with the page's local search term as search term. *)
Theorem page_filters_like_selector (products : list Product.t)
    (localSearchTerm : string) (f : Filter.t) (field : ProductKey)
    (order : SortOrder) :
  pageFilteredProducts products localSearchTerm f field order
  ≡ₚ filterProducts products
       (Filter.mk (Filter.category f) (Filter.status f) localSearchTerm).
Proof.
  rewrite pageFilteredProducts_unsorted. apply stableSort_perm.
Qed.

Lemma StronglySorted_weaken {A} (R R' : A → A → Prop) (l : list A) :
  (∀ a b, R a b → R' a b) → StronglySorted R l → StronglySorted R' l.
Proof.
  intros HR. induction 1 as [|x l _ IH Hx]; constructor; [done|].
  eapply Forall_impl; [exact Hx|]. intros y. apply HR.
Qed.

(** X17. Sorted by price, the page lists the prices in non-decreasing order
    when ascending and in non-increasing order when descending. *)
Theorem page_sorts_by_price (products : list Product.t)
    (localSearchTerm : string) (f : Filter.t) :
  StronglySorted (λ a b, Product.price a ≤ Product.price b)%Z
    (pageFilteredProducts products localSearchTerm f FPrice Asc)
  ∧ StronglySorted (λ a b, Product.price b ≤ Product.price a)%Z
      (pageFilteredProducts products localSearchTerm f FPrice Desc).
Proof.
  rewrite !pageFilteredProducts_unsorted. split.
  - eapply StronglySorted_weaken;
      [|apply (stableSort_sorted (pageCompare FPrice Asc))].
    + intros a b. unfold pageCompare. simpl. lia.
    + split; unfold pageCompare; simpl; intros; lia.
  - eapply StronglySorted_weaken;
      [|apply (stableSort_sorted (pageCompare FPrice Desc))].
    + intros a b. unfold pageCompare. simpl. lia.
    + split; unfold pageCompare; simpl; intros; lia.
Qed.

Lemma insertSorted_never_below {A} (cmp : A → A → Z) (x : A) (l : list A) :
  (∀ y, y ∈ l → ¬ cmp x y < 0) → insertSorted cmp x l = (l ++ [x])%list.
Proof.
  induction l as [|y l IH]; intros Hl; simpl; [done|].
  rewrite decide_False by (apply Hl; left).
  rewrite IH; [done|]. intros z Hz. apply Hl. by right.
Qed.

Lemma stableSort_in_place {A} (cmp : A → A → Z) (l : list A) :
  (∀ done x rest, (done ++ x :: rest)%list = l →
     ∀ y, y ∈ done → ¬ cmp x y < 0) →
  stableSort cmp l = l.
Proof.
  intros Hl. unfold stableSort.
  cut (∀ done rest, (done ++ rest)%list = l →
         foldl (λ acc x, insertSorted cmp x acc) done rest = l).
  { intros Hcut. by apply (Hcut [] l). }
  intros done rest. revert done.
  induction rest as [|x rest IH]; intros done Heq; simpl.
  - by rewrite app_nil_r in Heq.
  - rewrite insertSorted_never_below by by eapply Hl.
    apply IH. by rewrite <- app_assoc.
Qed.

Lemma stableSort_never_below {A} (cmp : A → A → Z) (l : list A) :
  (∀ x y, x ∈ l → y ∈ l → ¬ cmp x y < 0) → stableSort cmp l = l.
Proof.
  intros Hl. apply stableSort_in_place.
  intros done x rest <- y Hy. apply Hl; rewrite elem_of_app.
  - right. left.
  - by left.
Qed.

(** Sorting a sorted array leaves it as it is. *)
Lemma stableSort_sorted_id {A} (cmp : A → A → Z) (l : list A) :
  sortedBy cmp l → stableSort cmp l = l.
Proof.
  intros Hl. apply stableSort_in_place.
  intros done x rest <- y Hy. unfold sortedBy in Hl.
  apply (StronglySorted_app_1_elem_of _ _ _ y x Hl); [done|left].
Qed.

(** X18. When no listed product has an id that spells a number, as for the
    generated and the added ids, sorting by id compares [NaN] throughout:
    in either direction the page shows the filtered products in the order
    of the store. *)
Theorem page_sort_by_id_keeps_order (products : list Product.t)
    (localSearchTerm : string) (f : Filter.t) (order : SortOrder) :
  Forall (λ p, toNumber (Product.id p) = None) products →
  pageFilteredProducts products localSearchTerm f FId order
  = filterProducts products
      (Filter.mk (Filter.category f) (Filter.status f) localSearchTerm).
Proof.
  intros Hnan. rewrite pageFilteredProducts_unsorted.
  apply stableSort_never_below. intros a b Ha _.
  assert (a ∈ products) as Hin.
  { rewrite filterProducts_matchesFilter, list_elem_of_In, filter_In in Ha.
    by apply list_elem_of_In, Ha. }
  rewrite Forall_forall in Hnan. unfold pageCompare.
  rewrite (Hnan a Hin). by destruct order.
Qed.

Lemma countStatus_perm b (l k : list Product.t) :
  l ≡ₚ k → countStatus b l = countStatus b k.
Proof.
  induction 1 as [|p l k _ IH|p q l|l k m _ IH1 _ IH2]; simpl;
    [done|by rewrite IH|lia|congruence].
Qed.

(** X19. The counts of the page are those of the filtered selection,
    whatever the sort: the total and the counts of low-stock and
    out-of-stock products are the corresponding statistics of what
    [selectFilteredProducts] yields with the local search term. *)
Theorem pageStats_of_selection (products : list Product.t)
    (localSearchTerm : string) (f : Filter.t) (field : ProductKey)
    (order : SortOrder) :
  let shown := pageFilteredProducts products localSearchTerm f field order in
  let selection :=
    inventoryStats
      (filterProducts products
         (Filter.mk (Filter.category f) (Filter.status f) localSearchTerm)) in
  pageTotal (pageStats shown) = total selection
  ∧ pageLowStock (pageStats shown) = lowStock selection
  ∧ pageOutOfStock (pageStats shown) = outOfStock selection.
Proof.
  cbv zeta. rewrite pageFilteredProducts_unsorted.
  set (cmp := pageCompare field order). set (l := filterProducts _ _).
  pose proof (stableSort_perm cmp l) as Hperm.
  unfold pageStats, inventoryStats.
  cbn [pageTotal pageLowStock pageOutOfStock total lowStock outOfStock].
  rewrite !length_filter_status.
  split_and!.
  - by rewrite Hperm.
  - apply countStatus_perm, Hperm.
  - apply countStatus_perm, Hperm.
Qed.

Lemma sortedBy_fmap_name (l : list Product.t) :
  nameSorted l → sortedBy sortComparer l.
Proof.
  unfold nameSorted, sortedBy. induction l as [|p l IH]; csimpl.
  - constructor.
  - intros [Hl Hp]%StronglySorted_inv. constructor; [by apply IH|].
    by rewrite Forall_fmap in Hp.
Qed.

(** X20. When [localeCompare] orders strings, the page with no search term,
    no filter and the initial sort (name, ascending) shows the products of
    a reachable store exactly as [selectAllProducts] lists them: the sort
    of the page finds them sorted already. *)
Theorem page_default_view_is_store_order (s : State) :
  strictOrder localeCompare → reachable s →
  pageFilteredProducts (selectAllProducts s) "" initialFilter FName Asc
  = selectAllProducts s.
Proof.
  intros Hcmp Hr. rewrite pageFilteredProducts_unsorted.
  rewrite filterProducts_matchesFilter, filter_all_true by done.
  change (pageCompare FName Asc) with sortComparer.
  by apply stableSort_sorted_id, sortedBy_fmap_name, reachable_nameSorted.
Qed.

(** ** Counting after a removal and an add *)

Lemma selectAll_removeOne_present s key :
  listed s → keyed s → is_Some (entities s !! key) →
  selectAllProducts (removeOne s key)
  = List.filter (λ q, bool_decide (Product.id q ≠ key))
      (selectAllProducts s).
Proof.
  unfold listed, keyed. intros Hl Hk Hkey.
  rewrite removeOne_present by done.
  unfold selectAllProducts. cbn [ids entities set_adapter].
  induction Hl as [|k l [q Hq] _ IH]; csimpl; [done|].
  rewrite Hq. csimpl.
  assert (Product.id q = k) as Hqk by by apply (Hk k q).
  destruct (decide (k = key)) as [->|Hne].
  - rewrite lookup_delete_eq.
    rewrite bool_decide_eq_false_2 by (by intros [? ?]).
    by rewrite bool_decide_eq_false_2 by (by intros ?).
  - rewrite lookup_delete_ne, Hq by done.
    rewrite bool_decide_eq_true_2 by (by eexists).
    rewrite bool_decide_eq_true_2 by congruence.
    csimpl. rewrite lookup_delete_ne, Hq by done. csimpl. by rewrite IH.
Qed.

(** X21. On a well-formed state, removing a present id takes exactly that
    product out of [selectAllProducts]: the others stay, in their order,
    and the total count goes down by one. *)
Theorem remove_present_drops_one (now : string) (s : State) (id : string)
    (p : Product.t) :
  wellFormed s → entities s !! id = Some p →
  let s' := remove now s id in
  selectAllProducts s'
  = List.filter (λ q, bool_decide (Product.id q ≠ id)) (selectAllProducts s)
  ∧ total (selectInventoryStats s') = pred (total (selectInventoryStats s))
  ∧ (∀ k, k ≠ id → selectProductById s' k = selectProductById s k).
Proof.
  intros Hwf Hp. cbv zeta.
  pose proof Hwf as (_ & Hl & Hk & _).
  pose proof (removeOne_wellFormed s id Hwf) as Hwf'.
  unfold remove. cbn [deleteProduct deleteSettled inventoryReducer].
  split_and!.
  - apply selectAll_removeOne_present; [done..|by eexists].
  - unfold selectInventoryStats, inventoryStats. cbn [total].
    rewrite !wellFormed_size by done.
    rewrite removeOne_present by (by eexists). cbn [entities set_adapter].
    apply map_size_delete_Some. by eexists.
  - intros k Hne. unfold selectProductById.
    rewrite removeOne_present by (by eexists). cbn [entities set_adapter].
    by apply lookup_delete_ne.
Qed.

(** X22. On a well-formed state, an [add] whose id is fresh inserts the new
    product into the list of all products, the others keeping their order,
    and raises the total by one and the count of its computed status by
    one. *)
Theorem add_fresh_counts (now : string) (s : State) (d : ProductData.t)
    (dateNow : Z) :
  wellFormed s → ("PROD-" +:+ pretty dateNow) ∉ ids s →
  let s' := add now s d dateNow in
  let st := stockStatus (ProductData.quantity d) (ProductData.minStock d) in
  (∃ p before after,
     addProduct d dateNow now = Fulfilled p
     ∧ selectAllProducts s = (before ++ after)%list
     ∧ selectAllProducts s' = (before ++ p :: after)%list)
  ∧ total (selectInventoryStats s') = S (total (selectInventoryStats s))
  ∧ (∀ b, countStatus b (selectAllProducts s')
          = (countStatus b (selectAllProducts s)
             + (if decide (st = b) then 1 else 0))%nat).
Proof.
  intros Hwf Hn. cbv zeta.
  destruct (add_addOne now s d dateNow) as (p & Hful & Hid & Hadd).
  rewrite Hadd. rewrite <- Hid in Hn.
  rewrite selectAll_addOne_fresh by done.
  destruct (insertSorted_split sortComparer p (selectAllProducts s))
    as (before & after & Hsplit & Hins).
  assert (p = Product.mk ("PROD-" +:+ pretty dateNow) (ProductData.name d)
                (ProductData.sku d) (ProductData.category d)
                (ProductData.price d) (ProductData.quantity d)
                (ProductData.minStock d)
                (stockStatus (ProductData.quantity d)
                   (ProductData.minStock d)) now) as Hp
    by (unfold addProduct in Hful; congruence).
  unfold selectInventoryStats, inventoryStats. cbn [total].
  rewrite selectAll_addOne_fresh by done.
  rewrite Hins, Hsplit.
  split_and!.
  - by exists p, before, after.
  - rewrite !length_app. simpl. lia.
  - intros b. rewrite !countStatus_app. simpl. rewrite Hp. simpl. lia.
Qed.

(** ** The total value in the safe range *)

Lemma inventoryValue_magnitude (l : list Product.t) :
  (Z.abs (inventoryValue l) ≤ magnitude l)%Z.
Proof. induction l as [|p l IH]; simpl; lia. Qed.

Lemma magnitude_app (l1 l2 : list Product.t) :
  magnitude (l1 ++ l2)%list = magnitude l1 + magnitude l2.
Proof. induction l1 as [|p l1 IH]; simpl; [done|]. rewrite IH. lia. Qed.

Lemma safeValues_insert (p : Product.t) (l1 l2 : list Product.t) :
  safeValues (l1 ++ p :: l2)%list →
  safeValues (l1 ++ l2)%list
  ∧ (Z.abs (Product.price p) < 2 ^ 53)%Z
  ∧ (Z.abs (Product.quantity p) < 2 ^ 53)%Z
  ∧ (magnitude (l1 ++ l2)%list
     + Z.abs (Product.price p * Product.quantity p) < 2 ^ 53)%Z.
Proof.
  intros [Hall Hsum].
  rewrite Forall_app, Forall_cons in Hall.
  destruct Hall as (H1 & [Hp Hq] & H2).
  rewrite magnitude_app in Hsum. simpl in Hsum.
  pose proof (magnitude_nonneg l1). pose proof (magnitude_nonneg l2).
  split_and!; [split| | |]; rewrite ?Forall_app, ?magnitude_app;
    try done; lia.
Qed.

Lemma totalValue_exact (l : list Product.t) :
  safeValues l → totalValue (inventoryStats l) = number (inventoryValue l).
Proof.
  intros Hsafe. unfold inventoryStats. cbn [totalValue].
  rewrite foldl_sumValues. by apply sumValues_exact.
Qed.

(** X23. When the prices, the quantities and the sum of the absolute
    values of price times quantity of the filtered selection stay below
    2^53, the total value the page shows is the one the statistics give for
    the selection, whatever the sort: both are the sum itself. *)
Theorem page_totalValue_in_safe_range (products : list Product.t)
    (localSearchTerm : string) (f : Filter.t) (field : ProductKey)
    (order : SortOrder) :
  safeValues
    (filterProducts products
       (Filter.mk (Filter.category f) (Filter.status f) localSearchTerm)) →
  let selection :=
    filterProducts products
      (Filter.mk (Filter.category f) (Filter.status f) localSearchTerm) in
  let shown := pageFilteredProducts products localSearchTerm f field order in
  pageTotalValue (pageStats shown) = totalValue (inventoryStats selection)
  ∧ pageTotalValue (pageStats shown) = number (inventoryValue selection).
Proof.
  intros Hsafe. cbv zeta. rewrite pageFilteredProducts_unsorted.
  set (cmp := pageCompare field order). set (l := filterProducts _ _) in *.
  pose proof (stableSort_perm cmp l) as Hperm.
  assert (pageTotalValue (pageStats (stableSort cmp l))
          = number (inventoryValue l)) as Hpage.
  { unfold pageStats. cbn [pageTotalValue]. rewrite foldl_sumValues.
    rewrite sumValues_exact by (by apply (safeValues_perm l)).
    by rewrite (inventoryValue_perm _ _ Hperm). }
  split; [|done]. by rewrite Hpage, totalValue_exact.
Qed.

(** X24. On a well-formed state, when the values of the store after an
    [add] under a fresh id are in the safe range, the total value before
    the add is the sum of price times quantity, and the total value after
    it is that sum plus the price times the quantity of the draft. *)
Theorem add_fresh_totalValue (now : string) (s : State) (d : ProductData.t)
    (dateNow : Z) :
  wellFormed s → ("PROD-" +:+ pretty dateNow) ∉ ids s →
  safeValues (selectAllProducts (add now s d dateNow)) →
  totalValue (selectInventoryStats s)
  = number (inventoryValue (selectAllProducts s))
  ∧ totalValue (selectInventoryStats (add now s d dateNow))
    = number (inventoryValue (selectAllProducts s)
              + ProductData.price d * ProductData.quantity d).
Proof.
  intros Hwf Hn Hsafe.
  destruct (add_addOne now s d dateNow) as (p & Hful & Hid & Hadd).
  rewrite Hadd in *. rewrite <- Hid in Hn.
  rewrite selectAll_addOne_fresh in Hsafe by done.
  destruct (insertSorted_split sortComparer p (selectAllProducts s))
    as (before & after & Hsplit & Hins).
  assert (Product.price p = ProductData.price d
          ∧ Product.quantity p = ProductData.quantity d) as [Hprice Hqty]
    by (unfold addProduct in Hful; by simplify_eq).
  rewrite Hins in Hsafe.
  destruct (safeValues_insert _ _ _ Hsafe) as (Hsafe' & _).
  unfold selectInventoryStats.
  rewrite selectAll_addOne_fresh by done.
  rewrite !totalValue_exact by (by rewrite ?Hins, ?Hsplit).
  split; [done|]. f_equal.
  rewrite Hins, Hsplit, !inventoryValue_app. simpl.
  rewrite Hprice, Hqty. lia.
Qed.

(** X25. On a well-formed state, when the values of the store before and
    after an [updateStock] on a present product are in the safe range, the
    total value after it is the sum before it plus the price of the
    product times the change of its quantity. *)
Theorem updateStock_totalValue (now : string) (s : State) (id : string)
    (quantity : Z) (p : Product.t) :
  wellFormed s → entities s !! id = Some p →
  safeValues (selectAllProducts s) →
  safeValues (selectAllProducts (updateStock now s id quantity)) →
  totalValue (selectInventoryStats s)
  = number (inventoryValue (selectAllProducts s))
  ∧ totalValue (selectInventoryStats (updateStock now s id quantity))
    = number (inventoryValue (selectAllProducts s)
              + Product.price p * (quantity - Product.quantity p)).
Proof.
  intros Hwf Hp Hsafe Hsafe'.
  pose proof Hwf as (Hnd & _).
  assert (id ∈ ids s) as Hin
    by (apply wellFormed_elem_of; [done|by eexists]).
  unfold selectInventoryStats. rewrite !totalValue_exact by done.
  split; [done|]. f_equal. clear Hsafe Hsafe'.
  unfold updateStock. rewrite Hp.
  set (p' := Product.mk _ _ _ _ _ _ _ _ _).
  destruct (omap_lookup_insert_split (entities s) (ids s) id p p'
              Hnd Hin Hp) as (l1 & l2 & Hall & Hall').
  unfold selectAllProducts. cbn [ids entities set_adapter].
  rewrite Hall, Hall', !inventoryValue_app. simpl. lia.
Qed.

End Store.

(** ** The store on concrete inputs *)

(** Settles a decidable proposition about concrete data by evaluating its
    decision procedure. *)
Ltac decide_by_evaluation :=
  apply (bool_decide_unpack _); vm_compute; exact I.

(** The draft of the specification's scenario: five in stock, ten wanted. *)
Definition sampleDraft (name : string) : ProductData.t :=
  ProductData.mk name "S1" "Books" 10 5 10.

(** A draft without name, sku and category, with a negative price and a
    negative quantity. *)
Definition emptyDraft : ProductData.t := ProductData.mk "" "" "" (-5) (-1) 10.

Definition sampleDraw : Draw :=
  mkDraw (1 # 2) (1 # 2) (1 # 4) 1700000000000 (1 # 3).

(** An environment whose first draw is below the failure rate, and one whose
    first draw is above it. *)
Definition failingEnv : FetchEnv := mkFetchEnv (1 # 20) (λ _, sampleDraw).
Definition succeedingEnv : FetchEnv := mkFetchEnv (1 # 2) (λ _, sampleDraw).

(** A store holding two added products. *)
Definition sampleStore : State :=
  add codeUnitCompare "2023-11-14T22:13:20.001Z"
    (add codeUnitCompare "2023-11-14T22:13:20.000Z" initialState
       (sampleDraft "X") 1700000000000)
    (sampleDraft "A") 1700000000001.

Example sampleStore_ids :
  ids sampleStore = ["PROD-1700000000001"; "PROD-1700000000000"].
Proof. reflexivity. Qed.

(** The scenario of the specification: quantity 5 under [minStock] 10 is
    stored as low stock. *)
Example sampleDraft_low_stock :
  Product.status <$> selectAllProducts sampleStore = [LowStock; LowStock].
Proof. reflexivity. Qed.

(** C2, counterexample. On the empty store, [updateStock] for the absent id
    [PROD-404] does not fail: the dispatch returns. *)
Lemma updateStock_absent_returns :
  ¬ (entities initialState !! "PROD-404" = None →
     ∃ message,
       dispatch codeUnitCompare "2023-11-14T22:13:20.000Z" initialState
         (UpdateStock "PROD-404" 5)
       = Threw message).
Proof. intros H. destruct (H eq_refl) as [message Hm]. discriminate Hm. Qed.

(** C2, witness: on the store of two products, a stock update for an absent
    id and one that empties the stock of a present id. *)
Lemma updateStock_spec_witness :
  entities sampleStore !! "PROD-404" = None
  ∧ dispatch codeUnitCompare "2023-11-14T22:13:21.000Z" sampleStore
      (UpdateStock "PROD-404" 0)
    = Returned sampleStore
  ∧ ∃ s',
      dispatch codeUnitCompare "2023-11-14T22:13:21.000Z" sampleStore
        (UpdateStock "PROD-1700000000000" 0)
      = Returned s'
      ∧ (Product.status <$> entities s' !! "PROD-1700000000000")
        = Some OutOfStock.
Proof.
  pose proof (updateStock_spec codeUnitCompare "2023-11-14T22:13:21.000Z"
                sampleStore "PROD-404" 0) as [Habsent _].
  pose proof (updateStock_spec codeUnitCompare "2023-11-14T22:13:21.000Z"
                sampleStore "PROD-1700000000000" 0) as [_ Hpresent].
  split; [reflexivity|]. split; [exact (Habsent eq_refl)|].
  destruct (Hpresent _ eq_refl) as (s' & Hs' & Hp & _).
  exists s'. split; [exact Hs'|]. rewrite Hp. reflexivity.
Defined.

(** C3, counterexample. The draft without name, sku and category, with a
    negative price and quantity, is not rejected, and the store holds it
    afterwards. *)
Lemma addProduct_stores_invalid_draft :
  invalidDraft emptyDraft
  ∧ ¬ (∃ message,
         addProduct emptyDraft 1700000000000 "2023-11-14T22:13:20.000Z"
         = Rejected message)
  ∧ add codeUnitCompare "2023-11-14T22:13:20.000Z" initialState emptyDraft
      1700000000000
    ≠ initialState
  ∧ ids (add codeUnitCompare "2023-11-14T22:13:20.000Z" initialState
           emptyDraft 1700000000000)
    = ["PROD-1700000000000"].
Proof.
  split; [by left|]. split; [by intros [message Hm]|].
  split; [|reflexivity]. intros Heq.
  apply (f_equal ids) in Heq. by vm_compute in Heq.
Qed.

(** C4, witness: a failing load on the store of two products. *)
Lemma load_failure_witness :
  fetchInventory decimalTime (Some 3) failingEnv
  = Rejected "Network error: Failed to fetch inventory"
  ∧ entities (load codeUnitCompare decimalTime "2023-11-14T22:13:21.000Z"
                sampleStore (Some 3) failingEnv)
    = entities sampleStore
  ∧ length (selectAllProducts
              (load codeUnitCompare decimalTime "2023-11-14T22:13:21.000Z"
                 sampleStore (Some 3) failingEnv))
    = 2%nat
  ∧ status (load codeUnitCompare decimalTime "2023-11-14T22:13:21.000Z"
              sampleStore (Some 3) failingEnv)
    = Failed.
Proof.
  destruct (load_failure_preserves_entities codeUnitCompare decimalTime
              "2023-11-14T22:13:21.000Z" sampleStore (Some 3) failingEnv
              "Network error: Failed to fetch inventory" eq_refl)
    as (He & _ & Hn & Hs & _).
  split; [reflexivity|]. split; [exact He|].
  split; [rewrite Hn; reflexivity|exact Hs].
Defined.

(** A store of three added products: one worth 2^53, two worth 1 each. *)
Definition roundingStore : State :=
  add codeUnitCompare "2023-11-14T22:13:20.002Z"
    (add codeUnitCompare "2023-11-14T22:13:20.001Z"
       (add codeUnitCompare "2023-11-14T22:13:20.000Z" initialState
          (ProductData.mk "A" "S1" "Books" 9007199254740992 1 10)
          1700000000000)
       (ProductData.mk "B" "S2" "Books" 1 1 10) 1700000000001)
    (ProductData.mk "C" "S3" "Books" 1 1 10) 1700000000002.

Example roundingStore_values :
  ((λ p, (Product.price p, Product.quantity p))
     <$> selectAllProducts roundingStore)
  = [(9007199254740992, 1); (1, 1); (1, 1)]
  ∧ inventoryValue (selectAllProducts roundingStore) = 9007199254740994
  ∧ totalValue (selectInventoryStats roundingStore) = number 9007199254740992.
Proof. by vm_compute. Qed.

(** C5, counterexample. With a product worth 2^53 followed by two worth 1
    each, [totalValue] is 2^53: each addition of 1 is rounded away, and the
    sum of price times quantity, 2^53 + 2, is not what is returned. *)
Lemma totalValue_is_rounded :
  ¬ (totalValue (selectInventoryStats roundingStore)
     = number (inventoryValue (selectAllProducts roundingStore))).
Proof. by vm_compute. Qed.

(** The same three products added up in the opposite order give the sum
    itself: the page, sorted by name in descending order, shows another
    total value than the statistics of the store. *)
Example page_totalValue_depends_on_order :
  pageTotalValue
    (pageStats
       (pageFilteredProducts codeUnitCompare asciiLower (λ _, None)
          (selectAllProducts roundingStore) "" initialFilter FName Desc))
  = number 9007199254740994
  ∧ totalValue (selectInventoryStats roundingStore)
    = number 9007199254740992
  ∧ number 9007199254740994 ≠ number 9007199254740992.
Proof. by vm_compute. Qed.

(** C5, witness: the statistics of the store of two products, whose values
    are in the safe range. *)
Lemma selectInventoryStats_spec_witness :
  safeValues (selectAllProducts sampleStore)
  ∧ total (selectInventoryStats sampleStore) = 2%nat
  ∧ totalValue (selectInventoryStats sampleStore) = number 100.
Proof.
  assert (safeValues (selectAllProducts sampleStore)) as Hsafe
    by (split; [by repeat constructor|done]).
  destruct (selectInventoryStats_spec sampleStore)
    as (Htotal & _ & _ & _ & _ & Hvalue & _).
  split; [exact Hsafe|]. split; [exact Htotal|]. exact (Hvalue Hsafe).
Defined.

(** C6, witness: the store of two products under the initial filter. *)
Lemma selectFilteredProducts_identity_witness :
  filter sampleStore = Filter.mk "all" "all" ""
  ∧ selectFilteredProducts asciiLower sampleStore
    = selectAllProducts sampleStore.
Proof.
  split; [reflexivity|].
  apply (selectFilteredProducts_identity asciiLower sampleStore).
  reflexivity.
Defined.

(** C7, counterexample. Two adds read the same millisecond: the second is
    given the id the store already holds, and the store stays as it was. *)
Lemma add_same_millisecond_reuses_id :
  ¬ (∀ p,
       addProduct (sampleDraft "Y") 1700000000000 "2023-11-14T22:13:20.000Z"
       = Fulfilled p →
       Product.id p
       ∉ ids (add codeUnitCompare "2023-11-14T22:13:20.000Z" initialState
                (sampleDraft "X") 1700000000000)).
Proof. intros H. apply (H _ eq_refl). vm_compute. left. Qed.

Example add_same_millisecond_dropped :
  add codeUnitCompare "2023-11-14T22:13:20.000Z"
    (add codeUnitCompare "2023-11-14T22:13:20.000Z" initialState
       (sampleDraft "X") 1700000000000)
    (sampleDraft "Y") 1700000000000
  = add codeUnitCompare "2023-11-14T22:13:20.000Z" initialState
      (sampleDraft "X") 1700000000000.
Proof. reflexivity. Qed.

(** C7, witness: two adds at different readings on the empty store. *)
Lemma repeated_adds_witness :
  wellFormed initialState
  ∧ NoDup (ids (addAll codeUnitCompare initialState
                  [("2023-11-14T22:13:20.000Z", sampleDraft "X",
                    1700000000000);
                   ("2023-11-14T22:13:20.001Z", sampleDraft "A",
                    1700000000001)]))
  ∧ eachIdFresh codeUnitCompare initialState
      [("2023-11-14T22:13:20.000Z", sampleDraft "X", 1700000000000);
       ("2023-11-14T22:13:20.001Z", sampleDraft "A", 1700000000001)]
  ∧ length (ids (addAll codeUnitCompare initialState
                   [("2023-11-14T22:13:20.000Z", sampleDraft "X",
                     1700000000000);
                    ("2023-11-14T22:13:20.001Z", sampleDraft "A",
                     1700000000001)]))
    = 2%nat.
Proof.
  assert (wellFormed initialState) as Hwf
    by decide_by_evaluation.
  destruct (repeated_adds_keep_ids_unique codeUnitCompare initialState
              [("2023-11-14T22:13:20.000Z", sampleDraft "X", 1700000000000);
               ("2023-11-14T22:13:20.001Z", sampleDraft "A", 1700000000001)]
              Hwf) as (_ & _ & Hnd & Hfresh).
  split; [exact Hwf|]. split; [exact Hnd|]. apply Hfresh.
  - decide_by_evaluation.
  - intros t _. apply not_elem_of_nil.
Defined.

(** C8, witness: removing a product of the store of two, and removing an id
    the store does not hold. *)
Lemma remove_spec_witness :
  listed sampleStore ∧ keyed sampleStore
  ∧ ids (remove codeUnitCompare "2023-11-14T22:13:21.000Z" sampleStore
           "PROD-1700000000000")
    = ["PROD-1700000000001"]
  ∧ ("PROD-1700000000000"
     ∉ ids (remove codeUnitCompare "2023-11-14T22:13:21.000Z" sampleStore
              "PROD-1700000000000"))
  ∧ remove codeUnitCompare "2023-11-14T22:13:21.000Z" sampleStore "PROD-404"
    = sampleStore.
Proof.
  assert (listed sampleStore) as Hl
    by decide_by_evaluation.
  assert (keyed sampleStore) as Hk
    by decide_by_evaluation.
  pose proof (remove_spec codeUnitCompare "2023-11-14T22:13:21.000Z"
                sampleStore "PROD-1700000000000" Hl Hk)
    as (_ & _ & _ & Hnot & _).
  pose proof (remove_spec codeUnitCompare "2023-11-14T22:13:21.000Z"
                sampleStore "PROD-404" Hl Hk)
    as (_ & _ & _ & _ & _ & Habsent).
  split; [exact Hl|]. split; [exact Hk|]. split; [reflexivity|].
  split; [exact Hnot|]. exact (proj1 (Habsent eq_refl)).
Defined.

(** A history without overlapping loads and without [updateProduct]: a load
    that fails, a load that succeeds with three products, an add, a stock
    update and a removal. *)
Definition sampleHistory : list (string * Event) :=
  [("2023-11-14T22:13:20.000Z", LoadStart);
   ("2023-11-14T22:13:21.500Z", LoadSettle None failingEnv);
   ("2023-11-14T22:13:22.000Z", LoadStart);
   ("2023-11-14T22:13:23.500Z", LoadSettle (Some 3) succeedingEnv);
   ("2023-11-14T22:13:24.000Z", Add (sampleDraft "X") 1700000004000);
   ("2023-11-14T22:13:25.000Z", UpdateQuantity "PROD-00002" 0);
   ("2023-11-14T22:13:26.000Z", Remove "PROD-00003")].

Definition sampleWorld : World :=
  default initialWorld
    (handleAll codeUnitCompare decimalTime initialWorld sampleHistory).

Example sampleHistory_runs :
  handleAll codeUnitCompare decimalTime initialWorld sampleHistory
  = Some sampleWorld.
Proof. by vm_compute. Qed.

Example sampleWorld_ids :
  ids (store sampleWorld) = ["PROD-00001"; "PROD-00002"; "PROD-1700000004000"]
  ∧ (Product.status <$> selectAllProducts (store sampleWorld))
    = [InStock; OutOfStock; LowStock]
  ∧ status (store sampleWorld) = Succeeded
  ∧ error (store sampleWorld) = None.
Proof. by vm_compute. Qed.

(** X1, witness: the bijection between [ids] and the keys of [entities] on
    the store the sample history leads to. *)
Lemma reachable_bijective_witness :
  reachable codeUnitCompare decimalTime (store sampleWorld)
  ∧ length (selectAllProducts (store sampleWorld))
    = size (entities (store sampleWorld))
  ∧ ("PROD-00003" ∈ ids (store sampleWorld)
     ↔ is_Some (entities (store sampleWorld) !! "PROD-00003")).
Proof.
  assert (reachable codeUnitCompare decimalTime (store sampleWorld)) as Hr.
  { exists sampleHistory, sampleWorld. split; [by vm_compute|done]. }
  destruct (reachable_bijective codeUnitCompare decimalTime
              (store sampleWorld) Hr) as [Hiff Hsize].
  split; [exact Hr|]. split; [exact Hsize|]. exact (Hiff "PROD-00003").
Defined.

(** X2, witness: the request error along the sample history, in which no
    two loads overlap. *)
Lemma sequential_errorConsistent_witness :
  handleAllSequential codeUnitCompare decimalTime initialWorld sampleHistory
  = Some sampleWorld
  ∧ errorConsistent (store sampleWorld).
Proof.
  assert (handleAllSequential codeUnitCompare decimalTime initialWorld
            sampleHistory = Some sampleWorld) as Hw by (by vm_compute).
  split; [exact Hw|].
  exact (sequential_errorConsistent codeUnitCompare decimalTime
           sampleHistory sampleWorld Hw).
Defined.

(** X3, witness: the status rule along the sample history, which has no
    [updateProduct] and writes no negative quantity. *)
Lemma update_free_statusConsistent_witness :
  Forall (λ ne, isUpdate ne.2 = false ∧ nonNegative ne.2) sampleHistory
  ∧ statusConsistent (store sampleWorld).
Proof.
  assert (Forall (λ ne, isUpdate ne.2 = false ∧ nonNegative ne.2)
            sampleHistory) as Hh.
  { repeat constructor; simpl; intros; done. }
  split; [exact Hh|].
  apply (update_free_statusConsistent codeUnitCompare decimalTime
           sampleHistory sampleWorld Hh).
  by vm_compute.
Defined.

(** ** More of the store on concrete inputs *)

(** An instance of [Number] on strings for the examples: the number a
    string of decimal digits spells (0 for the empty string), [NaN] for
    every other string. *)
Fixpoint digitsValue (s : string) (acc : Z) : option Z :=
  match s with
  | EmptyString => Some acc
  | String c s' =>
      let n := nat_of_ascii c in
      if (48 <=? n)%nat && (n <=? 57)%nat
      then digitsValue s' (10 * acc + Z.of_nat (n - 48))
      else None
  end.

Definition decimalNumber (s : string) : option Z := digitsValue s 0.

Example decimalNumber_values :
  decimalNumber "1700" = Some 1700 ∧ decimalNumber "" = Some 0
  ∧ decimalNumber "PROD-00001" = None.
Proof. done. Qed.

(** Comparison by code units orders the strings. *)
Lemma codeUnitCompare_strictOrder : strictOrder codeUnitCompare.
Proof.
  assert (∀ a b, codeUnitCompare a b < 0 ↔ String.compare a b = Lt) as Hlt.
  { intros a b. unfold codeUnitCompare.
    destruct (String.compare a b); split; (done || lia). }
  split.
  - intros a b. rewrite !Hlt.
    rewrite (String.compare_antisym b a). by intros ->.
  - intros a b c. rewrite !Hlt.
    change String.compare with OrderedTypeEx.String_as_OT.cmp.
    rewrite !OrderedTypeEx.String_as_OT.cmp_lt.
    apply OrderedTypeEx.String_as_OT.lt_trans.
Qed.

Lemma sampleStore_wellFormed : wellFormed sampleStore.
Proof. decide_by_evaluation. Qed.

Lemma sampleWorld_reachable :
  reachable codeUnitCompare decimalTime (store sampleWorld).
Proof. exists sampleHistory, sampleWorld. split; [by vm_compute|done]. Qed.

(** The first product of [sampleStore] by id. *)
Definition sampleProductX : Product.t :=
  Product.mk "PROD-1700000000000" "X" "S1" "Books" 10 5 10 LowStock
    "2023-11-14T22:13:20.000Z".

Example sampleStore_lookup :
  entities sampleStore !! "PROD-1700000000000" = Some sampleProductX.
Proof. by vm_compute. Qed.

(** X4, witness: a load of three products that succeeds, on the store of
    two. *)
Lemma load_success_witness :
  fetchInventory decimalTime (Some 3) succeedingEnv
  = Fulfilled (generateMockProducts decimalTime 3 (draws succeedingEnv))
  ∧ status (load codeUnitCompare decimalTime "2023-11-14T22:13:30.000Z"
              sampleStore (Some 3) succeedingEnv) = Succeeded
  ∧ total (selectInventoryStats
             (load codeUnitCompare decimalTime "2023-11-14T22:13:30.000Z"
                sampleStore (Some 3) succeedingEnv)) = 3%nat
  ∧ entities (load codeUnitCompare decimalTime "2023-11-14T22:13:30.000Z"
                sampleStore (Some 3) succeedingEnv)
      !! "PROD-1700000000000" = None.
Proof.
  destruct (load_success_replaces_entities codeUnitCompare decimalTime
              "2023-11-14T22:13:30.000Z" sampleStore (Some 3) succeedingEnv
              (generateMockProducts decimalTime 3 (draws succeedingEnv))
              eq_refl) as (Hst & _ & _ & Htotal & _).
  split; [reflexivity|]. split; [exact Hst|]. split; [exact Htotal|].
  by vm_compute.
Defined.

(** X5, witness: four products from the sample draw. *)
Lemma generateMockProducts_shape_witness :
  unitDraw sampleDraw
  ∧ length (generateMockProducts decimalTime 4 (λ _, sampleDraw)) = 4%nat
  ∧ NoDup (Product.id
             <$> generateMockProducts decimalTime 4 (λ _, sampleDraw)).
Proof.
  assert (unitDraw sampleDraw) as Hunit by (by vm_compute).
  destruct (generateMockProducts_shape decimalTime 4 (λ _, sampleDraw)
              (λ _, Hunit)) as (Hlen & Hnd & _).
  split; [exact Hunit|]. split; [exact Hlen|exact Hnd].
Defined.

(** X8, witness: the status filter ["In Stock"], which is not a tag. *)
Lemma unknown_status_filter_witness :
  "In Stock" ≠ "all"
  ∧ filterProducts asciiLower (selectAllProducts sampleStore)
      (Filter.mk "all" "In Stock" "") = [].
Proof.
  assert ("In Stock" ≠ "all") as Hne by done.
  split; [exact Hne|].
  apply (unknown_status_filter_shows_nothing asciiLower
           (selectAllProducts sampleStore) (Filter.mk "all" "In Stock" "")
           Hne).
  by intros [].
Defined.

(** X11, witness: a third product added to the store of two and removed
    again. *)
Lemma add_then_remove_witness :
  wellFormed sampleStore
  ∧ ("PROD-1700000000002" ∉ ids sampleStore)
  ∧ remove codeUnitCompare "2023-11-14T22:13:23.000Z"
      (add codeUnitCompare "2023-11-14T22:13:22.000Z" sampleStore
         (sampleDraft "M") 1700000000002)
      "PROD-1700000000002"
    = sampleStore.
Proof.
  assert ("PROD-1700000000002" ∉ ids sampleStore) as Hn
    by decide_by_evaluation.
  split; [exact sampleStore_wellFormed|]. split; [exact Hn|].
  exact (add_then_remove_restores codeUnitCompare
           "2023-11-14T22:13:22.000Z" "2023-11-14T22:13:23.000Z" sampleStore
           (sampleDraft "M") 1700000000002 sampleStore_wellFormed Hn).
Defined.

(** X12, witness: the stock of the low-stock product X set to 0. *)
Lemma updateStock_moves_one_bucket_witness :
  entities sampleStore !! "PROD-1700000000000" = Some sampleProductX
  ∧ outOfStock (selectInventoryStats
                  (updateStock "2023-11-14T22:13:22.000Z" sampleStore
                     "PROD-1700000000000" 0))
    = S (outOfStock (selectInventoryStats sampleStore))
  ∧ total (selectInventoryStats
             (updateStock "2023-11-14T22:13:22.000Z" sampleStore
                "PROD-1700000000000" 0))
    = 2%nat.
Proof.
  destruct (updateStock_moves_one_bucket "2023-11-14T22:13:22.000Z"
              sampleStore "PROD-1700000000000" 0 sampleProductX
              sampleStore_wellFormed sampleStore_lookup)
    as (Htotal & _ & Hout).
  split; [exact sampleStore_lookup|].
  split; [by apply Hout|exact Htotal].
Defined.

(** X13, witness: an update for an absent id, and a price change for the
    product X. *)
Lemma update_merges_changes_witness :
  wellFormed sampleStore
  ∧ update codeUnitCompare "2023-11-14T22:13:22.000Z" sampleStore "PROD-404"
      (Changes.mk None None None None (Some 12) None None None None)
    = sampleStore
  ∧ (Product.price
       <$> entities
             (update codeUnitCompare "2023-11-14T22:13:22.000Z" sampleStore
                "PROD-1700000000000"
                (Changes.mk None None None None (Some 12) None None None
                   None))
           !! "PROD-1700000000000")
    = Some 12.
Proof.
  destruct (update_merges_changes codeUnitCompare "2023-11-14T22:13:22.000Z"
              sampleStore "PROD-404"
              (Changes.mk None None None None (Some 12) None None None None)
              sampleStore_wellFormed) as [Habsent _].
  destruct (update_merges_changes codeUnitCompare "2023-11-14T22:13:22.000Z"
              sampleStore "PROD-1700000000000"
              (Changes.mk None None None None (Some 12) None None None None)
              sampleStore_wellFormed) as [_ Hpresent].
  destruct (Hpresent sampleProductX sampleStore_lookup eq_refl)
    as (Hent & _).
  split; [exact sampleStore_wellFormed|].
  split; [by apply Habsent|].
  rewrite Hent, lookup_insert_eq. reflexivity.
Defined.

(** X14, witness: the product X renamed onto the id of the other product of
    the store, which it overwrites. *)
Lemma update_rename_witness :
  entities sampleStore !! "PROD-1700000000000" = Some sampleProductX
  ∧ length (selectAllProducts sampleStore) = 2%nat
  ∧ length (selectAllProducts
              (update codeUnitCompare "2023-11-14T22:13:22.000Z" sampleStore
                 "PROD-1700000000000"
                 (Changes.mk (Some "PROD-1700000000001") None None None None
                    None None None None)))
    = 1%nat
  ∧ selectProductById
      (update codeUnitCompare "2023-11-14T22:13:22.000Z" sampleStore
         "PROD-1700000000000"
         (Changes.mk (Some "PROD-1700000000001") None None None None
            None None None None))
      "PROD-1700000000000"
    = None.
Proof.
  destruct (update_rename_moves_entity codeUnitCompare
              "2023-11-14T22:13:22.000Z" sampleStore "PROD-1700000000000"
              "PROD-1700000000001"
              (Changes.mk (Some "PROD-1700000000001") None None None None
                 None None None None)
              sampleProductX sampleStore_wellFormed sampleStore_lookup
              eq_refl ltac:(done)) as (_ & _ & Hold & _ & _ & Hlen).
  split; [exact sampleStore_lookup|]. split; [reflexivity|].
  split; [|exact Hold]. rewrite Hlen. by vm_compute.
Defined.

(** X15, witness: the store the sample history leads to, under comparison
    by code units. *)
Lemma reachable_sorted_by_name_witness :
  strictOrder codeUnitCompare
  ∧ reachable codeUnitCompare decimalTime (store sampleWorld)
  ∧ nameSorted codeUnitCompare (selectAllProducts (store sampleWorld)).
Proof.
  split; [exact codeUnitCompare_strictOrder|].
  split; [exact sampleWorld_reachable|].
  exact (reachable_sorted_by_name codeUnitCompare decimalTime
           (store sampleWorld) codeUnitCompare_strictOrder
           sampleWorld_reachable).
Defined.

(** X18, witness: the three products of the sample world sorted by id,
    descending. *)
Lemma page_sort_by_id_witness :
  Forall (λ p, decimalNumber (Product.id p) = None)
    (selectAllProducts (store sampleWorld))
  ∧ pageFilteredProducts codeUnitCompare asciiLower decimalNumber
      (selectAllProducts (store sampleWorld)) "" initialFilter FId Desc
    = selectAllProducts (store sampleWorld).
Proof.
  assert (Forall (λ p, decimalNumber (Product.id p) = None)
            (selectAllProducts (store sampleWorld))) as Hnan
    by decide_by_evaluation.
  split; [exact Hnan|].
  rewrite (page_sort_by_id_keeps_order codeUnitCompare asciiLower
             decimalNumber (selectAllProducts (store sampleWorld)) ""
             initialFilter Desc Hnan).
  by vm_compute.
Defined.

(** X20, witness: the default view of the page on the sample world. *)
Lemma page_default_view_witness :
  strictOrder codeUnitCompare
  ∧ reachable codeUnitCompare decimalTime (store sampleWorld)
  ∧ pageFilteredProducts codeUnitCompare asciiLower decimalNumber
      (selectAllProducts (store sampleWorld)) "" initialFilter FName Asc
    = selectAllProducts (store sampleWorld).
Proof.
  split; [exact codeUnitCompare_strictOrder|].
  split; [exact sampleWorld_reachable|].
  exact (page_default_view_is_store_order codeUnitCompare asciiLower
           decimalTime decimalNumber (store sampleWorld)
           codeUnitCompare_strictOrder sampleWorld_reachable).
Defined.

(** X21, witness: the product X removed from the store of two. *)
Lemma remove_present_witness :
  entities sampleStore !! "PROD-1700000000000" = Some sampleProductX
  ∧ total (selectInventoryStats
             (remove codeUnitCompare "2023-11-14T22:13:22.000Z" sampleStore
                "PROD-1700000000000"))
    = 1%nat
  ∧ (Product.name
       <$> selectAllProducts
             (remove codeUnitCompare "2023-11-14T22:13:22.000Z" sampleStore
                "PROD-1700000000000"))
    = ["A"].
Proof.
  destruct (remove_present_drops_one codeUnitCompare
              "2023-11-14T22:13:22.000Z" sampleStore "PROD-1700000000000"
              sampleProductX sampleStore_wellFormed sampleStore_lookup)
    as (Hall & Htotal & _).
  split; [exact sampleStore_lookup|].
  split; [rewrite Htotal; by vm_compute|].
  rewrite Hall. by vm_compute.
Defined.

(** X22, witness: a product named M added to the store of A and X. *)
Lemma add_fresh_counts_witness :
  ("PROD-1700000000002" ∉ ids sampleStore)
  ∧ total (selectInventoryStats
             (add codeUnitCompare "2023-11-14T22:13:22.000Z" sampleStore
                (sampleDraft "M") 1700000000002))
    = 3%nat
  ∧ (Product.name
       <$> selectAllProducts
             (add codeUnitCompare "2023-11-14T22:13:22.000Z" sampleStore
                (sampleDraft "M") 1700000000002))
    = ["A"; "M"; "X"].
Proof.
  assert ("PROD-1700000000002" ∉ ids sampleStore) as Hn
    by decide_by_evaluation.
  destruct (add_fresh_counts codeUnitCompare "2023-11-14T22:13:22.000Z"
              sampleStore (sampleDraft "M") 1700000000002
              sampleStore_wellFormed Hn) as (_ & Htotal & _).
  split; [exact Hn|]. split; [rewrite Htotal; by vm_compute|].
  by vm_compute.
Defined.

Lemma sampleStore_safeValues : safeValues (selectAllProducts sampleStore).
Proof. split; [by repeat constructor|done]. Qed.

(** X23, witness: the page on the store of two products, sorted by name in
    descending order. *)
Lemma page_totalValue_witness :
  safeValues
    (filterProducts asciiLower (selectAllProducts sampleStore)
       (Filter.mk "all" "all" ""))
  ∧ pageTotalValue
      (pageStats
         (pageFilteredProducts codeUnitCompare asciiLower decimalNumber
            (selectAllProducts sampleStore) "" initialFilter FName Desc))
    = number 100.
Proof.
  assert (safeValues
            (filterProducts asciiLower (selectAllProducts sampleStore)
               (Filter.mk "all" "all" ""))) as Hsafe
    by exact sampleStore_safeValues.
  destruct (page_totalValue_in_safe_range codeUnitCompare asciiLower
              decimalNumber (selectAllProducts sampleStore) "" initialFilter
              FName Desc Hsafe) as [_ Hvalue].
  split; [exact Hsafe|exact Hvalue].
Defined.

(** X24, witness: a product worth 50 added to the store of two, worth
    100. *)
Lemma add_fresh_totalValue_witness :
  safeValues
    (selectAllProducts
       (add codeUnitCompare "2023-11-14T22:13:22.000Z" sampleStore
          (sampleDraft "M") 1700000000002))
  ∧ totalValue (selectInventoryStats sampleStore) = number 100
  ∧ totalValue
      (selectInventoryStats
         (add codeUnitCompare "2023-11-14T22:13:22.000Z" sampleStore
            (sampleDraft "M") 1700000000002))
    = number 150.
Proof.
  assert ("PROD-1700000000002" ∉ ids sampleStore) as Hn
    by decide_by_evaluation.
  assert (safeValues
            (selectAllProducts
               (add codeUnitCompare "2023-11-14T22:13:22.000Z" sampleStore
                  (sampleDraft "M") 1700000000002))) as Hsafe
    by (split; [by repeat constructor|done]).
  destruct (add_fresh_totalValue codeUnitCompare "2023-11-14T22:13:22.000Z"
              sampleStore (sampleDraft "M") 1700000000002
              sampleStore_wellFormed Hn Hsafe) as [Hbefore Hafter].
  split; [exact Hsafe|]. split; [exact Hbefore|exact Hafter].
Defined.

(** X25, witness: the stock of the product X, of price 10, raised from 5
    to 8. *)
Lemma updateStock_totalValue_witness :
  entities sampleStore !! "PROD-1700000000000" = Some sampleProductX
  ∧ safeValues (selectAllProducts sampleStore)
  ∧ totalValue
      (selectInventoryStats
         (updateStock "2023-11-14T22:13:22.000Z" sampleStore
            "PROD-1700000000000" 8))
    = number 130.
Proof.
  assert (safeValues
            (selectAllProducts
               (updateStock "2023-11-14T22:13:22.000Z" sampleStore
                  "PROD-1700000000000" 8))) as Hsafe
    by (split; [by repeat constructor|done]).
  destruct (updateStock_totalValue "2023-11-14T22:13:22.000Z" sampleStore
              "PROD-1700000000000" 8 sampleProductX sampleStore_wellFormed
              sampleStore_lookup sampleStore_safeValues Hsafe)
    as [_ Hafter].
  split; [exact sampleStore_lookup|].
  split; [exact sampleStore_safeValues|exact Hafter].
Defined.
